(** * GameLoop: the fixed-rate frame pacing loop

    A shallow embedding of [class GameLoop] (module [GameLoop.ts], also
    inlined in [App.svelte]) and of the part of the browser it talks to:
    [Date.now()], [requestAnimationFrame] and the draw callback.

    Numbers.  The fields of [GameLoop] are JavaScript [number]s, that is
    binary64.  Two number systems are used.  Most of the development is
    over exact rationals extended with the two infinities and NaN, in
    which [1000 / 0], [x % 0] and comparisons with NaN behave as they do
    in JavaScript, but nothing is rounded and there is one zero.  The
    statements made over them either do not depend on the value of an
    arithmetic result, or compare whole numbers, or are made for
    whole-number intervals and boundaries: for the rates used by the
    application (5 and 25 frames per second, intervals 200 and 40) and an
    integer millisecond clock every value the loop computes is a whole
    number below 2^53, where binary64 arithmetic is exact.  Module
    [Binary64] has the same loop on binary64 numbers themselves; it is
    used to run the loop where rounding matters.

    Around the loop, also embedded: the callbacks [updateGrid] of
    [CGoL.ts] and [App.svelte] with the buffers they work on, the loops
    that fill the initial cells, and the device setup ([initWebGPU],
    [onMount]). *)

From Stdlib Require Import ZArith QArith Qround Lqa Lia List Bool.
From Stdlib Require String.
From Stdlib Require Import SpecFloat.
Import ListNotations.

Set Implicit Arguments.

(** ** JavaScript numbers *)

Inductive number : Type :=
| Fin (q : Q)
| PInf
| NInf
| NaN.

Module JS.

Definition ofZ (z : Z) : number := Fin (inject_Z z).

(** Truncation towards zero, the rounding used by [%]. *)
Definition Qtrunc (q : Q) : Z := Z.quot (Qnum q) (Zpos (Qden q)).

Definition Qis_zero (q : Q) : bool := Z.eqb (Qnum q) 0.
Definition Qis_neg (q : Q) : bool := Z.ltb (Qnum q) 0.

(** [a - b] *)
Definition sub (a b : number) : number :=
  match a, b with
  | NaN, _ | _, NaN => NaN
  | Fin x, Fin y => Fin (x - y)
  | Fin _, PInf => NInf
  | Fin _, NInf => PInf
  | PInf, PInf => NaN
  | PInf, _ => PInf
  | NInf, NInf => NaN
  | NInf, _ => NInf
  end.

(** [a / b] *)
Definition div (a b : number) : number :=
  match a, b with
  | NaN, _ | _, NaN => NaN
  | Fin x, Fin y =>
      if Qis_zero y then
        if Qis_zero x then NaN else if Qis_neg x then NInf else PInf
      else Fin (x / y)
  | Fin _, (PInf | NInf) => Fin 0
  | (PInf | NInf), (PInf | NInf) => NaN
  | PInf, Fin y => if Qis_neg y then NInf else PInf
  | NInf, Fin y => if Qis_neg y then PInf else NInf
  end.

(** [a % b]: the remainder has the sign of the dividend. *)
Definition rem (a b : number) : number :=
  match a, b with
  | NaN, _ | _, NaN => NaN
  | (PInf | NInf), _ => NaN
  | Fin x, (PInf | NInf) => Fin x
  | Fin x, Fin y =>
      if Qis_zero y then NaN
      else Fin (x - y * inject_Z (Qtrunc (x / y)))
  end.

(** [a > b]; false as soon as one side is NaN. *)
Definition gt (a b : number) : bool :=
  match a, b with
  | NaN, _ | _, NaN => false
  | Fin x, Fin y => negb (Qle_bool x y)
  | PInf, (Fin _ | NInf) => true
  | Fin _, NInf => true
  | _, _ => false
  end.

(** [a <= b] *)
Definition le (a b : number) : bool :=
  match a, b with
  | NaN, _ | _, NaN => false
  | Fin x, Fin y => Qle_bool x y
  | NInf, _ => true
  | _, PInf => true
  | _, _ => false
  end.

(** Numeric equality of two numbers ([Q] has several representations of
    one rational, so this is not Leibniz equality). NaN equals nothing. *)
Definition eqn (a b : number) : Prop :=
  match a, b with
  | Fin x, Fin y => x == y
  | PInf, PInf => True
  | NInf, NInf => True
  | _, _ => False
  end.

Definition finite (a : number) : Prop :=
  match a with Fin _ => True | _ => False end.

End JS.

Declare Scope js_scope.
Delimit Scope js_scope with js.
Infix "-" := JS.sub : js_scope.
Infix "/" := JS.div : js_scope.
Infix "rem" := JS.rem (at level 40, no associativity) : js_scope.
Infix ">?" := JS.gt (at level 70, no associativity) : js_scope.
Infix "<=?" := JS.le : js_scope.
Infix "=n=" := JS.eqn (at level 70, no associativity) : js_scope.

Local Open Scope js_scope.

(** ** Effects: a state monad in which a thrown exception keeps the state

    A JavaScript exception unwinds the stack and undoes nothing: every
    assignment made before the [throw] stays.  A computation therefore
    returns its outcome together with the state it reached, on both
    paths. *)

Section Effects.

Variable Exn : Type.

Inductive outcome (A : Type) : Type :=
| Normal (a : A)
| Throw (e : Exn).

Arguments Throw {A} e.

Definition M (S A : Type) : Type := S -> outcome A * S.

Definition ret {S A} (a : A) : M S A := fun s => (Normal a, s).

Definition bind {S A B} (m : M S A) (k : A -> M S B) : M S B :=
  fun s =>
    match m s with
    | (Normal a, s') => k a s'
    | (Throw e, s') => (Throw e, s')
    end.

Definition get {S} : M S S := fun s => (Normal s, s).
Definition modify {S} (f : S -> S) : M S unit := fun s => (Normal tt, f s).

End Effects.

Arguments Normal {Exn A} a.
Arguments Throw {Exn A} e.
Arguments ret {Exn S A} a.
Arguments bind {Exn S A B} m k.
Arguments get {Exn S}.
Arguments modify {Exn S} f.

Declare Scope eff_scope.
Delimit Scope eff_scope with eff.
Notation "x <- m ;; k" := (bind m (fun x => k))
  (at level 100, m at next level, right associativity) : eff_scope.
Notation "m ;; k" := (bind m (fun _ => k))
  (at level 100, right associativity) : eff_scope.

Local Open Scope eff_scope.

(** ** The host and the scheduler object *)

Section GameLoop.

(** [World] is whatever the draw callback acts on (the GPU device, the
    canvas, the step counter); [Exn] is the type of thrown values. *)
Variables World Exn : Type.

(** A zero-argument side-effecting procedure that may throw; what it did
    to the world before throwing stays done. *)
Definition Callback : Type := World -> outcome Exn unit * World.

(** [class GameLoop], field for field. *)
Record GameLoop : Type := mkGameLoop {
  fps : number;
  fpsInterval : number;
  drawCall : Callback;
  timeOffset : number;
  frameOffset : number;
  time : number;
  timeInFrame : number;
  timeDelta : number
}.

(** What the loop does to the browser, in the order it does it. *)
Inductive event : Type :=
| EvRequestFrame
| EvNow (t : Z)
| EvDraw.

(** The browser as the loop sees it: the millisecond clock behind
    [Date.now()], the number of animation-frame callbacks registered and
    not yet run (each of them is [() => this.runLoop()]), the log of
    effects, and the world of the callback. *)
Record Host : Type := mkHost {
  clock : Z;
  frameRequests : nat;
  trace : list event;
  world : World
}.

Record Sys : Type := mkSys {
  game : GameLoop;
  host : Host
}.

Definition log (e : event) (h : Host) : Host :=
  mkHost (clock h) (frameRequests h) (trace h ++ [e]) (world h).

Definition setClock (t : Z) (h : Host) : Host :=
  mkHost t (frameRequests h) (trace h) (world h).

(** [Date.now()] *)
Definition Date_now : M Exn Host number :=
  fun h => (Normal (JS.ofZ (clock h)), log (EvNow (clock h)) h).

(** [requestAnimationFrame(() => this.runLoop())] *)
Definition requestAnimationFrame : M Exn Host unit :=
  fun h =>
    (Normal tt,
     log EvRequestFrame
       (mkHost (clock h) (S (frameRequests h)) (trace h) (world h))).

(** [f()] for a callback [f] *)
Definition invoke (f : Callback) : M Exn Host unit :=
  fun h =>
    let h1 := log EvDraw h in
    let (r, w) := f (world h1) in
    (r, mkHost (clock h1) (frameRequests h1) (trace h1) w).

(** A host operation run from inside a method of the object. *)
Definition hostOp {A} (m : M Exn Host A) : M Exn Sys A :=
  fun s =>
    let (r, h) := m (host s) in (r, mkSys (game s) h).

(** [this] *)
Definition this : M Exn Sys GameLoop :=
  s <- get ;; ret (game s).

Definition onGame (f : GameLoop -> GameLoop) : M Exn Sys unit :=
  modify (fun s => mkSys (f (game s)) (host s)).

(** [this.timeDelta = v], [this.time = v], [this.timeInFrame = v],
    [this.frameOffset = v] *)
Definition set_timeDelta (v : number) : M Exn Sys unit :=
  onGame (fun g =>
    mkGameLoop (fps g) (fpsInterval g) (drawCall g) (timeOffset g)
               (frameOffset g) (time g) (timeInFrame g) v).

Definition set_time (v : number) : M Exn Sys unit :=
  onGame (fun g =>
    mkGameLoop (fps g) (fpsInterval g) (drawCall g) (timeOffset g)
               (frameOffset g) v (timeInFrame g) (timeDelta g)).

Definition set_timeInFrame (v : number) : M Exn Sys unit :=
  onGame (fun g =>
    mkGameLoop (fps g) (fpsInterval g) (drawCall g) (timeOffset g)
               (frameOffset g) (time g) v (timeDelta g)).

Definition set_frameOffset (v : number) : M Exn Sys unit :=
  onGame (fun g =>
    mkGameLoop (fps g) (fpsInterval g) (drawCall g) (timeOffset g)
               v (time g) (timeInFrame g) (timeDelta g)).

(** [constructor(fps, drawCall)].  The body is eight assignments and one
    clock read; there is no [throw] in it and no test of [fps]. *)
Definition constructor (fps : number) (drawCall : Callback)
  : M Exn Host GameLoop :=
  now <- Date_now ;;
  ret {| timeOffset := now;
         frameOffset := Fin 0;
         fps := fps;
         fpsInterval := Fin 1000 / fps;
         drawCall := drawCall;
         time := Fin 0;
         timeInFrame := Fin 0;
         timeDelta := Fin 0 |}.

(** [runLoop()], statement for statement. *)
Definition runLoop : M Exn Sys unit :=
  hostOp requestAnimationFrame ;;
  now <- hostOp Date_now ;;
  g <- this ;;
  let newTime := now - timeOffset g in
  set_timeDelta (newTime - time g) ;;
  set_time newTime ;;
  g <- this ;;
  set_timeInFrame (now - frameOffset g) ;;
  g <- this ;;
  if timeInFrame g >? fpsInterval g then
    set_frameOffset (now - (timeInFrame g rem fpsInterval g)) ;;
    g <- this ;;
    hostOp (invoke (drawCall g))
  else
    ret tt.

(** ** The driver

    [tick t] is one call of [runLoop] when the clock reads [t].
    [animationFrame t] is the browser's side of it: at the frame at time
    [t] it takes the callbacks registered so far and runs each; with none
    registered nothing runs ever again.  An exception escaping a callback
    is reported by the browser and ends that callback only. *)

Definition atClock (t : Z) (s : Sys) : Sys :=
  mkSys (game s) (setClock t (host s)).

Definition tick (t : Z) (s : Sys) : outcome Exn unit * Sys :=
  runLoop (atClock t s).

Definition takeRequests (s : Sys) : Sys :=
  mkSys (game s)
        (mkHost (clock (host s)) 0 (trace (host s)) (world (host s))).

Definition animationFrame (t : Z) (s : Sys) : Sys :=
  let n := frameRequests (host s) in
  Nat.iter n (fun s' => snd (runLoop s')) (takeRequests (atClock t s)).

Definition frames (ts : list Z) (s : Sys) : Sys :=
  fold_left (fun s' t => animationFrame t s') ts s.

(** [const game = new GameLoop(fps, drawCall); game.runLoop();] as the
    application does it.  [None]: the construction threw, there is no
    loop. *)
Definition main (fps : number) (drawCall : Callback) (h : Host)
  : option Sys :=
  match constructor fps drawCall h with
  | (Normal g, h') => Some (snd (runLoop (mkSys g h')))
  | (Throw _, _) => None
  end.

(** ** Observations *)

Definition isDraw (e : event) : bool :=
  match e with EvDraw => true | _ => false end.

(** Number of callback invocations logged. *)
Definition draws (l : list event) : nat := length (filter isDraw l).

(** The clock readings at which the callback was invoked: each [EvDraw]
    is paired with the last [Date.now()] read before it. *)
Fixpoint drawTimes (last : Z) (l : list event) : list Z :=
  match l with
  | [] => []
  | EvNow t :: l' => drawTimes t l'
  | EvDraw :: l' => last :: drawTimes last l'
  | EvRequestFrame :: l' => drawTimes last l'
  end.

(** The gate of [runLoop] as a function of the clock reading and of the
    object before the call. *)
Definition gate (t : Z) (g : GameLoop) : bool :=
  (JS.ofZ t - frameOffset g) >? fpsInterval g.

(** The object after the four timing assignments of [runLoop], and after
    the boundary assignment of a firing tick. *)
Definition timed (t : Z) (g : GameLoop) : GameLoop :=
  let now := JS.ofZ t in
  let newTime := now - timeOffset g in
  mkGameLoop (fps g) (fpsInterval g) (drawCall g) (timeOffset g)
             (frameOffset g) newTime (now - frameOffset g)
             (newTime - time g).

Definition resynced (t : Z) (g : GameLoop) : GameLoop :=
  let now := JS.ofZ t in
  let newTime := now - timeOffset g in
  let inFrame := now - frameOffset g in
  mkGameLoop (fps g) (fpsInterval g) (drawCall g) (timeOffset g)
             (now - (inFrame rem fpsInterval g)) newTime inFrame
             (newTime - time g).

(** States of a scheduler built with rate [R] and callback [cb]:
    the constructor's result, then any calls of [runLoop] and any
    animation frames, at any clock readings; the browser may take the
    registered callbacks at any point. *)
Inductive reachable (R : number) (cb : Callback) : Sys -> Prop :=
| reach_new h g h' :
    constructor R cb h = (Normal g, h') -> reachable R cb (mkSys g h')
| reach_tick s t :
    reachable R cb s -> reachable R cb (snd (tick t s))
| reach_take s :
    reachable R cb s -> reachable R cb (takeRequests s)
| reach_frame s t :
    reachable R cb s -> reachable R cb (animationFrame t s).

(** The states a list of ticks goes through, one per tick. *)
Fixpoint ticks (ts : list Z) (s : Sys) : list Sys :=
  match ts with
  | [] => []
  | t :: ts' => let s' := snd (tick t s) in s' :: ticks ts' s'
  end.

(** The fields that [runLoop] never assigns agree. *)
Definition sameParams (g g' : GameLoop) : Prop :=
  fps g' = fps g /\ fpsInterval g' = fpsInterval g /\
  drawCall g' = drawCall g /\ timeOffset g' = timeOffset g.

End GameLoop.

(** A clock that never runs backwards: every reading is at least the one
    before, starting from [c]. *)
Fixpoint nondecreasing (c : Z) (ts : list Z) : bool :=
  match ts with
  | [] => true
  | t :: ts' => (c <=? t)%Z && nondecreasing t ts'
  end.

(** ** The application's instance

    [updateGrid] is the callback both call sites pass; of what it does
    only [++step] is kept.  [brokenDraw] is a callback that throws after
    counting.  [refresh60] is a 60 Hz display: frames at 16, 33, 50, ...,
    1000 milliseconds after the start. *)

Module Scenario.

Definition Step : Type := nat.
Definition Err : Type := unit.

Definition updateGrid : Callback Step Err :=
  fun step => (Normal tt, S step).

Definition brokenDraw : Callback Step Err :=
  fun step => (Throw tt, S step).

Definition host0 (c : Z) : Host Step := mkHost c 0 [] 0%nat.

Definition refresh60 : list Z :=
  map (fun i => (50 * Z.of_nat i / 3)%Z) (seq 1 60).

(** The page started when the clock reads [c0]: construction and the
    first call of [runLoop] at [c0], then sixty frames. *)
Definition session (rate : number) (cb : Callback Step Err) (c0 : Z)
  : option (Sys Step Err) :=
  option_map (frames (map (Z.add c0) refresh60))
             (main rate cb (host0 c0)).

(** The object and the host right after [new GameLoop(rate, cb)] at
    clock reading [c0]. *)
Definition fresh (rate : number) (cb : Callback Step Err) (c0 : Z)
  : Sys Step Err :=
  mkSys (mkGameLoop rate (Fin 1000 / rate) cb (JS.ofZ c0)
                    (Fin 0) (Fin 0) (Fin 0) (Fin 0))
        (log (EvNow c0) (host0 c0)).

Definition sessionDrawTimes (c0 : Z) : list Z :=
  match session (Fin 5) updateGrid c0 with
  | Some s => drawTimes c0 (trace (host s))
  | None => []
  end.

End Scenario.

(** ** Runs of ticks and the boundary grid *)

Section Runs.

Variables World Exn : Type.

(** The state a list of ticks ends in. *)
Definition runTicks (ts : list Z) (s : Sys World Exn) : Sys World Exn :=
  fold_left (fun s' t => snd (tick t s')) ts s.

(** The boundary [frameOffset] sits on the grid of whole multiples of
    [i], at or after 0. *)
Definition aligned (i : Q) (g : GameLoop World Exn) : Prop :=
  exists (k : Z) (f : Q),
    (0 <= k)%Z /\ frameOffset g = Fin f /\ (f == inject_Z k * i)%Q.

End Runs.

(** ** The callback applied several times *)

Section Calls.

Variables World Exn : Type.

(** The world after [n] invocations of a callback, thrown exceptions
    ignored as the frame driver ignores them. *)
Definition calls (cb : Callback World Exn) (n : nat) (w : World) : World :=
  Nat.iter n (fun w' => snd (cb w')) w.

End Calls.

(** ** Typed arrays and the loops that fill them

    A [Uint32Array] is a list of numbers of fixed length; an assignment
    at an index outside it is ignored, and [new Uint32Array(n)] is all
    zeros. *)

Module TypedArray.

Definition Uint32Array : Type := list N.

Definition create (n : nat) : Uint32Array := repeat 0%N n.

(** [arr[i] = v] *)
Fixpoint assign (i : nat) (v : N) (arr : Uint32Array) : Uint32Array :=
  match arr, i with
  | [], _ => []
  | _ :: rest, O => (v mod 2 ^ 32)%N :: rest
  | x :: rest, S i' => x :: assign i' v rest
  end.

(** [for (let i = start; i < arr.length; i += stride) arr[i] = value(i)],
    unrolled at most [fuel] times; with a stride of at least 1,
    [length arr] is always enough. *)
Fixpoint forLoop (stride : nat) (value : nat -> N) (fuel : nat) (i : nat)
                 (arr : Uint32Array) : Uint32Array :=
  match fuel with
  | O => arr
  | S fuel' =>
      if (i <? length arr)%nat
      then forLoop stride value fuel' (i + stride) (assign i (value i) arr)
      else arr
  end.

(** The indices a loop from [i] with stride [stride] visits below
    [len]. *)
Definition visited (stride i len j : nat) : Prop :=
  (j < len)%nat /\ exists q : nat, j = (i + q * stride)%nat.

End TypedArray.

(** ** Game of Life on two buffers ([CGoL.ts], [runGameOfLife])

    The texts of the two shaders are not among the sources.  The compute
    shader is a parameter: what it writes to the buffer bound read-write
    (binding 2) as a function of the buffer bound read-only (binding 1)
    and of the previous content of binding 2.  The render pass is kept
    as the buffer it is given to draw from (binding 1). *)

Module CGoL.

Definition Buffer : Type := TypedArray.Uint32Array.

(** The two storage buffers, by their labels. *)
Inductive BufferId : Type := CellStateA | CellStateB.

Record Storage : Type := mkStorage {
  cellStateA : Buffer;
  cellStateB : Buffer
}.

Definition read (b : BufferId) (st : Storage) : Buffer :=
  match b with CellStateA => cellStateA st | CellStateB => cellStateB st end.

Definition write (b : BufferId) (v : Buffer) (st : Storage) : Storage :=
  match b with
  | CellStateA => mkStorage v (cellStateB st)
  | CellStateB => mkStorage (cellStateA st) v
  end.

(** A bind group: which buffer sits at binding 1 and which at binding 2
    (binding 0, the grid size, is the same in both). *)
Record BindGroup : Type := mkBindGroup {
  binding1 : BufferId;
  binding2 : BufferId
}.

(** [bindGroups]: group A reads A and writes B, group B the reverse. *)
Definition bindGroups : list BindGroup :=
  [ mkBindGroup CellStateA CellStateB; mkBindGroup CellStateB CellStateA ].

Inductive TypeError : Type := Undefined.

Inductive command : Type :=
| ComputePass (g : BindGroup)
| RenderPass (g : BindGroup).

(** The device as [updateGrid] sees it: the counter [step], the two
    buffers, what the last render pass drew, and the number of command
    buffers submitted. *)
Record Gpu : Type := mkGpu {
  step : nat;
  storage : Storage;
  onCanvas : option Buffer;
  submitted : nat
}.

(** [const UPDATE_INTERVAL = 40; const FPS = 1000 / UPDATE_INTERVAL;] *)
Definition FPS (UPDATE_INTERVAL : number) : number :=
  (Fin 1000 / UPDATE_INTERVAL)%js.

(** [Math.ceil] *)
Definition Math_ceil (a : number) : number :=
  match a with
  | Fin q => Fin (inject_Z (Qceiling q))
  | _ => a
  end.

(** [Math.ceil(GRID_SIZE / WORKGROUP_SIZE)] *)
Definition workgroupCount (GRID_SIZE WORKGROUP_SIZE : number) : number :=
  Math_ceil (GRID_SIZE / WORKGROUP_SIZE)%js.

(** The initial state: [Math.random() > 0.6 ? 1 : 0] in every cell, the
    draws of [Math.random()] being given in the order they are made. *)
Definition randomCells (random : nat -> Q) (n : nat) : Buffer :=
  TypedArray.forLoop 1
    (fun i => if JS.gt (Fin (random i)) (Fin (6 # 10)) then 1%N else 0%N)
    n 0 (TypedArray.create n).

Section Shader.

Variable computeMain : Buffer -> Buffer -> Buffer.

Definition exec (c : command) (d : Gpu) : Gpu :=
  match c with
  | ComputePass g =>
      let input := read (binding1 g) (storage d) in
      let output := read (binding2 g) (storage d) in
      mkGpu (step d)
            (write (binding2 g) (computeMain input output) (storage d))
            (onCanvas d) (submitted d)
  | RenderPass g =>
      mkGpu (step d) (storage d)
            (Some (read (binding1 g) (storage d))) (submitted d)
  end.

(** [device.queue.submit([encoder.finish()])]: the recorded passes run
    in the order they were recorded. *)
Definition submit (cs : list command) (d : Gpu) : Gpu :=
  let d' := fold_left (fun d0 c => exec c d0) cs d in
  mkGpu (step d') (storage d') (onCanvas d') (S (submitted d')).

(** [bindGroups[k]]; an index outside the table gives [undefined], which
    [setBindGroup] refuses. *)
Definition bindGroupAt (k : nat) : M TypeError Gpu BindGroup :=
  fun d =>
    match nth_error bindGroups k with
    | Some g => (Normal g, d)
    | None => (Throw Undefined, d)
    end.

Definition incrStep (d : Gpu) : Gpu :=
  mkGpu (S (step d)) (storage d) (onCanvas d) (submitted d).

(** [updateGrid]: the compute pass with [bindGroups[step % 2]], then
    [++step], then the render pass with [bindGroups[step % 2]], then the
    submission of both. *)
Definition updateGrid : Callback Gpu TypeError :=
  d <- get ;;
  g <- bindGroupAt (step d mod 2) ;;
  modify incrStep ;;
  d <- get ;;
  g' <- bindGroupAt (step d mod 2) ;;
  modify (submit [ComputePass g; RenderPass g']).

(** The generations: the current one and the one before it. *)
Fixpoint generations (a b : Buffer) (n : nat) : Buffer * Buffer :=
  match n with
  | O => (a, b)
  | S k =>
      let (cur, prev) := generations a b k in (computeMain cur prev, cur)
  end.

(** The buffer holding the current generation after [n] steps. *)
Definition current (n : nat) : BufferId :=
  if Nat.even n then CellStateA else CellStateB.

Definition previous (n : nat) : BufferId :=
  if Nat.even n then CellStateB else CellStateA.

(** [runGameOfLife] from the point where the buffers are filled:
    both buffers get the same cells, [step] is 0, and the loop is started
    with [FPS] and [updateGrid]. *)
Definition initialGpu (cells : Buffer) : Gpu :=
  mkGpu 0 (mkStorage cells cells) None 0.

Definition runGameOfLife (UPDATE_INTERVAL : number) (cells : Buffer)
                         (now : Z) : option (Sys Gpu TypeError) :=
  main (FPS UPDATE_INTERVAL) updateGrid
       (mkHost now 0 [] (initialGpu cells)).

End Shader.

End CGoL.

(** ** The two fixed patterns and the alternating display
       ([App.svelte])

    [App.svelte] has no compute pass: its [updateGrid] does [++step] and
    draws from buffer [step % 2].  Buffer A is filled with a 1 in every
    third cell, buffer B with [i % 2]; the same array is used for both,
    [writeBuffer] copying it each time. *)

Module App.

Import CGoL.

(** [for (let i = 0; i < cellStateArray.length; i += 3)
      cellStateArray[i] = 1;] *)
Definition everyThird (arr : Buffer) : Buffer :=
  TypedArray.forLoop 3 (fun _ => 1%N) (length arr) 0 arr.

(** [for (let i = 0; i < cellStateArray.length; ++i)
      cellStateArray[i] = i % 2;] *)
Definition alternating (arr : Buffer) : Buffer :=
  TypedArray.forLoop 1 (fun i => N.of_nat (i mod 2)) (length arr) 0 arr.

(** The array is created, filled and copied to A, filled again and
    copied to B. *)
Definition initialStorage (GRID_SIZE : nat) : Storage :=
  let cellStateArray := TypedArray.create (GRID_SIZE * GRID_SIZE) in
  let cellStateArray := everyThird cellStateArray in
  let stateA := cellStateArray in
  let cellStateArray := alternating cellStateArray in
  mkStorage stateA cellStateArray.

(** [bindGroup]: binding 1 of group A is buffer A, of group B buffer B. *)
Definition bindGroup : list BufferId := [ CellStateA; CellStateB ].

Definition bindGroupAt (k : nat) : M TypeError Gpu BufferId :=
  fun d =>
    match nth_error bindGroup k with
    | Some b => (Normal b, d)
    | None => (Throw Undefined, d)
    end.

Definition render (b : BufferId) (d : Gpu) : Gpu :=
  mkGpu (step d) (storage d) (Some (read b (storage d))) (S (submitted d)).

(** [updateGrid]: [++step], then one render pass with
    [bindGroup[step % 2]]. *)
Definition updateGrid : Callback Gpu TypeError :=
  modify incrStep ;;
  d <- get ;;
  b <- bindGroupAt (step d mod 2) ;;
  modify (render b).

End App.

(** ** Getting the device ([CGoL.ts], [initWebGPU]; [App.svelte],
       [onMount])

    The browser objects are opaque; what matters is which of them are
    there.  An [await] of a promise that rejects throws the reason. *)

Module Setup.

Import String.

Section Objects.

Variables GPUDevice GPUCanvasContext HTMLCanvasElement Format ApiError : Type.

(** What a failure carries: a bare string ([Promise.reject("...")]), an
    [Error] object ([throw new Error("...")]), or whatever a browser call
    rejected with. *)
Inductive reason : Type :=
| Str (m : string)
| Err (m : string)
| Other (e : ApiError).

Record GPUAdapter : Type := mkAdapter {
  requestDevice : outcome ApiError GPUDevice
}.

Record GPU : Type := mkGPU {
  requestAdapter : outcome ApiError (option GPUAdapter);
  getPreferredCanvasFormat : Format
}.

Record Canvas : Type := mkCanvas {
  element : HTMLCanvasElement;
  getContext : option GPUCanvasContext
}.

(** [document.querySelector("canvas")] and [navigator.gpu] *)
Record Page : Type := mkPage {
  querySelector : option Canvas;
  navigator_gpu : option GPU
}.

Record WebGPUPayload : Type := mkPayload {
  canvas : Canvas;
  context : GPUCanvasContext;
  device : GPUDevice
}.

(** The browser calls made, in order. *)
Inductive call : Type :=
| QuerySelector
| RequestAdapter
| RequestDevice
| GetContext
| GetPreferredCanvasFormat.

Definition note (c : call) : M reason (list call) unit :=
  modify (fun l => l ++ [c]).

Definition reject {A : Type} (r : reason) : M reason (list call) A :=
  fun l => (Throw r, l).

(** [await p]: the value of a fulfilled promise; a rejected one throws
    what it was rejected with. *)
Definition await {A : Type} (p : outcome ApiError A)
  : M reason (list call) A :=
  fun l =>
    match p with
    | Normal a => (Normal a, l)
    | Throw e => (Throw (Other e), l)
    end.

(** [initWebGPU] of [CGoL.ts] *)
Definition initWebGPU (page : Page) : M reason (list call) WebGPUPayload :=
  note QuerySelector ;;
  match querySelector page with
  | None => reject (Str "Canvas not present.")
  | Some canvas =>
      match navigator_gpu page with
      | None => reject (Str "WebGPU not supported on this browser.")
      | Some gpu =>
          note RequestAdapter ;;
          adapter <- await (requestAdapter gpu) ;;
          match adapter with
          | None => reject (Str "No appropriate GPUAdapter found.")
          | Some adapter =>
              note RequestDevice ;;
              device <- await (requestDevice adapter) ;;
              note GetContext ;;
              match getContext canvas with
              | None => reject (Str "Context failed to be initialized")
              | Some context => ret (mkPayload canvas context device)
              end
          end
      end
  end.

(** The same steps as [onMount] of [App.svelte] makes them: the failures
    are thrown [Error]s and the canvas format is asked for before the
    context is tested. *)
Definition onMount (page : Page)
  : M reason (list call) (GPUDevice * GPUCanvasContext * Format) :=
  note QuerySelector ;;
  match querySelector page with
  | None => reject (Err "Canvas not present.")
  | Some canvas =>
      match navigator_gpu page with
      | None => reject (Err "WebGPU not supported on this browser.")
      | Some gpu =>
          note RequestAdapter ;;
          adapter <- await (requestAdapter gpu) ;;
          match adapter with
          | None => reject (Err "No appropriate GPUAdapter found.")
          | Some adapter =>
              note RequestDevice ;;
              device <- await (requestDevice adapter) ;;
              note GetContext ;;
              note GetPreferredCanvasFormat ;;
              match getContext canvas with
              | None => reject (Err "Context failed to be initialized")
              | Some context =>
                  ret (device, context, getPreferredCanvasFormat gpu)
              end
          end
      end
  end.

(** A bare string and an [Error] with the same text, or the same reason
    passed on from the browser. *)
Definition sameFailure (r1 r2 : reason) : Prop :=
  match r1, r2 with
  | Str m1, Err m2 => m1 = m2
  | Other e1, Other e2 => e1 = e2
  | _, _ => False
  end.

End Objects.

Arguments Str {ApiError} m.
Arguments Err {ApiError} m.
Arguments Other {ApiError} e.

End Setup.

(** ** Pages to try the setup on *)

Module Pages.

Import Setup.

Definition Obj : Type := unit.

Definition withContext : Canvas Obj Obj := mkCanvas tt (Some tt).
Definition withoutContext : Canvas Obj Obj := mkCanvas tt None.

Definition goodGpu : GPU Obj Obj Obj :=
  mkGPU (Normal (Some (mkAdapter (Normal (Exn := Obj) tt)))) tt.

(** Everything is there. *)
Definition complete : Page Obj Obj Obj Obj Obj :=
  mkPage (Some withContext) (Some goodGpu).

(** The canvas gives no context. *)
Definition contextless : Page Obj Obj Obj Obj Obj :=
  mkPage (Some withoutContext) (Some goodGpu).

(** No canvas on the page. *)
Definition canvasless : Page Obj Obj Obj Obj Obj :=
  mkPage None (Some goodGpu).

End Pages.

(** ** Whole numbers

    On whole numbers below 2^53 binary64 addition, subtraction and
    remainder are exact, and so is a division whose quotient is whole.
    The statements that depend on the value of a difference or of a
    remainder are made for whole-number intervals and boundaries, where
    the exact numbers above and the binary64 numbers of the source are the
    same numbers. *)

Definition whole (q : Q) : Prop := exists z : Z, (q == inject_Z z)%Q.

(** ** The same loop on binary64 numbers

    [class GameLoop] once more, with the numbers as the source has them:
    IEEE 754 binary64 with rounding to nearest even, signed zeros,
    infinities and NaN ([spec_float] at precision 53).  It is used to
    run the loop where rounding matters. *)

Module Binary64.

Definition prec : Z := 53.
Definition emax : Z := 1024.

Definition float : Type := spec_float.

Definition ofZ (z : Z) : float := binary_normalize prec emax z 0 false.

(** [a - b], [a / b], [a > b] *)
Definition sub (a b : float) : float := SFsub prec emax a b.
Definition div (a b : float) : float := SFdiv prec emax a b.
Definition gt (a b : float) : bool := SFltb b a.

(** [a % b]: exact, with the sign of the dividend; NaN for an infinite
    dividend or a zero divisor, the dividend itself for an infinite
    divisor. *)
Definition remainder (a b : float) : float :=
  match a, b with
  | S754_nan, _ | _, S754_nan => S754_nan
  | S754_infinity _, _ => S754_nan
  | _, S754_zero _ => S754_nan
  | _, S754_infinity _ => a
  | S754_zero _, _ => a
  | S754_finite sa ma ea, S754_finite sb mb eb =>
      let e := Z.min ea eb in
      let x := Zpos (fst (shl_align ma ea e)) in
      let y := Zpos (fst (shl_align mb eb e)) in
      binary_normalize prec emax (cond_Zopp sa (Z.rem x y)) e sa
  end.

(** The rational a finite binary64 number stands for (0 for the rest). *)
Definition toQ (a : float) : Q :=
  match a with
  | S754_finite s m e => (inject_Z (cond_Zopp s (Zpos m)) * 2 ^ e)%Q
  | _ => 0%Q
  end.

Section Loop.

Variables World Exn : Type.

Record GameLoop : Type := mkGameLoop {
  fps : float;
  fpsInterval : float;
  drawCall : Callback World Exn;
  timeOffset : float;
  frameOffset : float;
  time : float;
  timeInFrame : float;
  timeDelta : float
}.

Record Sys : Type := mkSys {
  game : GameLoop;
  host : Host World
}.

Definition Date_now : M Exn (Host World) float :=
  fun h => (Normal (ofZ (clock h)), log (EvNow (clock h)) h).

Definition hostOp {A} (m : M Exn (Host World) A) : M Exn Sys A :=
  fun s =>
    let (r, h) := m (host s) in (r, mkSys (game s) h).

Definition this : M Exn Sys GameLoop :=
  s <- get ;; ret (game s).

Definition onGame (f : GameLoop -> GameLoop) : M Exn Sys unit :=
  modify (fun s => mkSys (f (game s)) (host s)).

Definition set_timeDelta (v : float) : M Exn Sys unit :=
  onGame (fun g =>
    mkGameLoop (fps g) (fpsInterval g) (drawCall g) (timeOffset g)
               (frameOffset g) (time g) (timeInFrame g) v).

Definition set_time (v : float) : M Exn Sys unit :=
  onGame (fun g =>
    mkGameLoop (fps g) (fpsInterval g) (drawCall g) (timeOffset g)
               (frameOffset g) v (timeInFrame g) (timeDelta g)).

Definition set_timeInFrame (v : float) : M Exn Sys unit :=
  onGame (fun g =>
    mkGameLoop (fps g) (fpsInterval g) (drawCall g) (timeOffset g)
               (frameOffset g) (time g) v (timeDelta g)).

Definition set_frameOffset (v : float) : M Exn Sys unit :=
  onGame (fun g =>
    mkGameLoop (fps g) (fpsInterval g) (drawCall g) (timeOffset g)
               v (time g) (timeInFrame g) (timeDelta g)).

(** [constructor(fps, drawCall)] *)
Definition constructor (fps : float) (drawCall : Callback World Exn)
  : M Exn (Host World) GameLoop :=
  now <- Date_now ;;
  ret {| timeOffset := now;
         frameOffset := ofZ 0;
         fps := fps;
         fpsInterval := div (ofZ 1000) fps;
         drawCall := drawCall;
         time := ofZ 0;
         timeInFrame := ofZ 0;
         timeDelta := ofZ 0 |}.

(** [runLoop()] *)
Definition runLoop : M Exn Sys unit :=
  hostOp (@requestAnimationFrame World Exn) ;;
  now <- hostOp Date_now ;;
  g <- this ;;
  let newTime := sub now (timeOffset g) in
  set_timeDelta (sub newTime (time g)) ;;
  set_time newTime ;;
  g <- this ;;
  set_timeInFrame (sub now (frameOffset g)) ;;
  g <- this ;;
  if gt (timeInFrame g) (fpsInterval g) then
    set_frameOffset (sub now (remainder (timeInFrame g) (fpsInterval g))) ;;
    g <- this ;;
    hostOp (invoke (drawCall g))
  else
    ret tt.

(** One call of [runLoop] when the clock reads [t], and a run of them. *)
Definition tick (t : Z) (s : Sys) : outcome Exn unit * Sys :=
  runLoop (mkSys (game s) (setClock t (host s))).

Definition runTicks (ts : list Z) (s : Sys) : Sys :=
  fold_left (fun s' t => snd (tick t s')) ts s.

(** The object right after [new GameLoop(fps, drawCall)]; the
    constructor has no [throw], the second branch is never taken. *)
Definition fresh (fps : float) (drawCall : Callback World Exn)
                 (h : Host World) : Sys :=
  match constructor fps drawCall h with
  | (Normal g, h') => mkSys g h'
  | (Throw _, h') =>
      mkSys (mkGameLoop fps S754_nan drawCall S754_nan S754_nan S754_nan
                        S754_nan S754_nan) h'
  end.

End Loop.

End Binary64.

(** The divisors of 1000: the update intervals, in whole milliseconds,
    whose rate [1000 / interval] is a whole number too. *)
Definition divisorsOf1000 : list Z :=
  [1; 2; 4; 5; 8; 10; 20; 25; 40; 50; 100; 125; 200; 250; 500; 1000]%Z.

(** * Arithmetic of the remainder *)

Section Arith.

Local Open Scope Q_scope.

Lemma Qtrunc_nonneg (q : Q) : 0 <= q -> JS.Qtrunc q = Qfloor q.
Proof.
  destruct q as [n d]; unfold Qle, JS.Qtrunc, Qfloor; cbn; intros H.
  apply Z.quot_div_nonneg; lia.
Qed.

(** For [0 < y < x] the quotient is at least one and the remainder lies
    in [[0, y)]. *)
Lemma Qrem_bounds (x y : Q) :
  0 < y -> y < x ->
  let k := JS.Qtrunc (x / y) in
  (1 <= k)%Z /\ 0 <= x - y * inject_Z k /\ x - y * inject_Z k < y.
Proof.
  intros Hy Hxy k.
  assert (Hq : 1 < x / y).
  { apply Qlt_shift_div_l; [ exact Hy | lra ]. }
  assert (Hk : k = Qfloor (x / y)).
  { apply Qtrunc_nonneg; lra. }
  assert (Hx : x == (x / y) * y).
  { field. lra. }
  pose proof (Qfloor_le (x / y)) as Hlo.
  pose proof (Qlt_floor (x / y)) as Hhi.
  rewrite <- Hk in Hlo, Hhi.
  assert (H1 : (1 <= k)%Z).
  { rewrite Hk. change 1%Z with (Qfloor 1). apply Qfloor_resp_le; lra. }
  split; [ exact H1 | ].
  rewrite inject_Z_plus in Hhi.
  set (q := x / y) in *. set (kq := inject_Z k) in *.
  change (inject_Z 1) with 1 in Hhi.
  split; nra.
Qed.

Lemma Qis_zero_false (q : Q) : ~ q == 0 -> JS.Qis_zero q = false.
Proof.
  destruct q as [n d]; unfold Qeq, JS.Qis_zero; cbn; intros H.
  apply Z.eqb_neq; lia.
Qed.

Lemma gt_Fin (x y : Q) : JS.gt (Fin x) (Fin y) = true <-> y < x.
Proof.
  cbn. rewrite negb_true_iff, <- not_true_iff_false, Qle_bool_iff.
  split; [ apply Qnot_le_lt | apply Qlt_not_le ].
Qed.

Lemma gt_Fin_false (x y : Q) : JS.gt (Fin x) (Fin y) = false <-> x <= y.
Proof.
  cbn. rewrite negb_false_iff, Qle_bool_iff. reflexivity.
Qed.

Lemma le_Fin (x y : Q) : JS.le (Fin x) (Fin y) = true <-> x <= y.
Proof. cbn. apply Qle_bool_iff. Qed.


Lemma div_pos (r : Q) : 0 < r -> JS.div (Fin 1000) (Fin r) = Fin (1000 / r).
Proof.
  intros H; unfold JS.div. rewrite Qis_zero_false; [ reflexivity | lra ].
Qed.

Lemma interval_pos (r : Q) : 0 < r -> 0 < 1000 / r.
Proof. intros H. apply Qlt_shift_div_l; [ exact H | lra ]. Qed.

End Arith.

(** * Properties *)

Section Properties.

Variables World Exn : Type.

Implicit Types (s : Sys World Exn) (g : GameLoop World Exn)
               (h : Host World) (cb : Callback World Exn)
               (t : Z) (R : number).

(** ** What one call of [runLoop] does *)

Lemma runLoop_eq s :
  runLoop s =
    let g := game s in
    let h := host s in
    let t := clock h in
    if gate t g then
      let (r, w) := drawCall g (world h) in
      (r, mkSys (resynced t g)
                (mkHost t (S (frameRequests h))
                        (trace h ++ [EvRequestFrame; EvNow t; EvDraw]) w))
    else
      (Normal tt,
       mkSys (timed t g)
             (mkHost t (S (frameRequests h))
                     (trace h ++ [EvRequestFrame; EvNow t]) (world h))).
Proof.
  destruct s as [g h].
  unfold runLoop, gate, timed, resynced, this, bind, get, hostOp, ret.
  unfold requestAnimationFrame, Date_now, invoke, log.
  cbn -[JS.sub JS.gt JS.rem JS.ofZ].
  rewrite <- !app_assoc; cbn [app].
  destruct (JS.gt _ _); cbn -[JS.sub JS.gt JS.rem JS.ofZ]; [ | reflexivity ].
  destruct (drawCall g (world h)) as [r w].
  rewrite <- !app_assoc; reflexivity.
Qed.

Lemma tick_eq t s :
  tick t s =
    let g := game s in
    let h := host s in
    if gate t g then
      let (r, w) := drawCall g (world h) in
      (r, mkSys (resynced t g)
                (mkHost t (S (frameRequests h))
                        (trace h ++ [EvRequestFrame; EvNow t; EvDraw]) w))
    else
      (Normal tt,
       mkSys (timed t g)
             (mkHost t (S (frameRequests h))
                     (trace h ++ [EvRequestFrame; EvNow t]) (world h))).
Proof. unfold tick; rewrite runLoop_eq; reflexivity. Qed.

Lemma constructor_eq R cb h :
  constructor R cb h =
    (Normal (mkGameLoop R (Fin 1000 / R) cb (JS.ofZ (clock h)) (Fin 0)
                        (Fin 0) (Fin 0) (Fin 0)),
     log (EvNow (clock h)) h).
Proof. reflexivity. Qed.

Lemma draws_app (l l' : list event) :
  draws (l ++ l') = (draws l + draws l')%nat.
Proof. unfold draws; rewrite filter_app, length_app; reflexivity. Qed.

(** ** Fields that no call of [runLoop] assigns *)

Lemma sameParams_refl g : sameParams g g.
Proof. repeat split. Qed.

Lemma sameParams_trans g1 g2 g3 :
  sameParams g1 g2 -> sameParams g2 g3 -> sameParams g1 g3.
Proof.
  unfold sameParams; intros (-> & -> & -> & ->) (-> & -> & -> & ->).
  repeat split.
Qed.

Lemma runLoop_params s : sameParams (game s) (game (snd (runLoop s))).
Proof.
  rewrite runLoop_eq; cbv zeta.
  destruct (gate _ _); [ destruct (drawCall _ _) | ]; repeat split.
Qed.

Lemma iter_runLoop_params n s :
  sameParams (game s) (game (Nat.iter n (fun s' => snd (runLoop s')) s)).
Proof.
  induction n as [ | n IH]; [ apply sameParams_refl | ].
  change (Nat.iter (S n) (fun s' => snd (runLoop s')) s)
    with (snd (runLoop (Nat.iter n (fun s' => snd (runLoop s')) s))).
  eapply sameParams_trans; [ exact IH | apply runLoop_params ].
Qed.

Lemma animationFrame_params t s :
  sameParams (game s) (game (animationFrame t s)).
Proof. unfold animationFrame. apply (iter_runLoop_params _ (takeRequests (atClock t s))). Qed.

Lemma reachable_params R cb s :
  reachable R cb s ->
  fps (game s) = R /\ fpsInterval (game s) = Fin 1000 / R /\
  drawCall (game s) = cb /\ exists c0, timeOffset (game s) = JS.ofZ c0.
Proof.
  induction 1 as [h g h' Hc | s t _ IH | s _ IH | s t _ IH].
  - rewrite constructor_eq in Hc; injection Hc as <- <-; cbn.
    repeat split; eauto.
  - unfold tick.
    destruct (runLoop_params (atClock t s)) as (-> & -> & -> & ->).
    exact IH.
  - exact IH.
  - destruct (animationFrame_params t s) as (-> & -> & -> & ->).
    exact IH.
Qed.

(** ** The boundary stays finite under a finite non-zero interval *)

Lemma runLoop_boundary_finite s i :
  fpsInterval (game s) = Fin i -> ~ i == 0 ->
  JS.finite (frameOffset (game s)) ->
  JS.finite (frameOffset (game (snd (runLoop s)))).
Proof.
  intros Hi Hnz Hf. rewrite runLoop_eq; cbv zeta.
  destruct (gate _ _); [ destruct (drawCall _ _) | ]; cbn -[JS.sub JS.rem]; [ | exact Hf ].
  rewrite Hi. destruct (frameOffset (game s)) as [f | | | ]; try contradiction.
  unfold JS.ofZ, JS.sub, JS.rem. rewrite (Qis_zero_false Hnz). exact I.
Qed.

Lemma iter_boundary_finite n s i :
  fpsInterval (game s) = Fin i -> ~ i == 0 ->
  JS.finite (frameOffset (game s)) ->
  JS.finite (frameOffset (game (Nat.iter n (fun s' => snd (runLoop s')) s))).
Proof.
  intros Hi Hnz Hf. induction n as [ | n IH]; [ exact Hf | ].
  change (Nat.iter (S n) (fun s' => snd (runLoop s')) s)
    with (snd (runLoop (Nat.iter n (fun s' => snd (runLoop s')) s))).
  apply runLoop_boundary_finite with (i := i); [ | exact Hnz | exact IH ].
  destruct (iter_runLoop_params n s) as (_ & E & _).
  rewrite E; exact Hi.
Qed.

Lemma interval_nonzero (r : Q) : ~ r == 0 -> ~ 1000 / r == 0.
Proof.
  intros Hnz E.
  assert (H : 1000 / r * r == 1000) by (field; exact Hnz).
  rewrite E in H. lra.
Qed.

Lemma reachable_boundary_finite r cb s :
  ~ r == 0 -> reachable (Fin r) cb s ->
  exists f, frameOffset (game s) = Fin f.
Proof.
  intros Hnz Hr.
  assert (JS.finite (frameOffset (game s))) as Hf.
  { induction Hr as [h g h' Hc | s t Hr IH | s Hr IH | s t Hr IH].
    - rewrite constructor_eq in Hc; injection Hc as <- <-; exact I.
    - destruct (reachable_params Hr) as (_ & Hi & _).
      unfold JS.div in Hi; rewrite (Qis_zero_false Hnz) in Hi.
      unfold tick.
      eapply runLoop_boundary_finite;
        [ exact Hi | apply interval_nonzero, Hnz | exact IH ].
    - exact IH.
    - destruct (reachable_params Hr) as (_ & Hi & _).
      unfold JS.div in Hi; rewrite (Qis_zero_false Hnz) in Hi.
      unfold animationFrame.
      eapply iter_boundary_finite;
        [ exact Hi | apply interval_nonzero, Hnz | exact IH ]. }
  destruct (frameOffset (game s)); try contradiction; eauto.
Qed.

(** ** One tick, observed *)

Lemma tick_trace t s :
  trace (host (snd (tick t s))) =
    trace (host s) ++ [EvRequestFrame; EvNow t] ++
    (if gate t (game s) then [EvDraw] else []).
Proof.
  rewrite tick_eq; cbv zeta.
  destruct (gate _ _); [ destruct (drawCall _ _) | ]; cbn;
    rewrite <- ?app_assoc; reflexivity.
Qed.

Lemma tick_draws t s :
  draws (trace (host (snd (tick t s)))) =
    (draws (trace (host s)) + (if gate t (game s) then 1 else 0))%nat.
Proof.
  rewrite tick_trace, draws_app. destruct (gate _ _); reflexivity.
Qed.

Lemma tick_game t s :
  game (snd (tick t s)) =
    if gate t (game s) then resynced t (game s) else timed t (game s).
Proof.
  rewrite tick_eq; cbv zeta.
  destruct (gate _ _); [ destruct (drawCall _ _) | ]; reflexivity.
Qed.

Lemma tick_requests t s :
  frameRequests (host (snd (tick t s))) = S (frameRequests (host s)).
Proof.
  rewrite tick_eq; cbv zeta.
  destruct (gate _ _); [ destruct (drawCall _ _) | ]; reflexivity.
Qed.

(** What the tick does with the callback: when the gate passes, the
    outcome of the tick and the world it leaves are the outcome and the
    world of one application of [drawCall] to the world it found; when it
    does not, the tick ends normally on the world it found. *)
Lemma tick_invokes t s :
  (fst (tick t s), world (host (snd (tick t s)))) =
    if gate t (game s)
    then drawCall (game s) (world (host s))
    else (Normal tt, world (host s)).
Proof.
  rewrite tick_eq; cbv zeta.
  destruct (gate _ _); [ | reflexivity ].
  destruct (drawCall (game s) (world (host s))); reflexivity.
Qed.


(** C4. At most one fire per tick: one tick applies the callback to its
    world at most once, and exactly once when the gate passes: the world
    after the tick is the world before it, or the callback applied to it
    one time, and as many draws are logged.  When more than three
    intervals have elapsed since the boundary the callback still runs one
    time, not three.  For a whole-number interval and boundary, the
    boundary is then moved so far that a second tick at the same clock
    reading does not pass the gate: the missed intervals are dropped. *)
Theorem at_most_one_fire_per_tick s t :
  let s' := snd (tick t s) in
  let cb := drawCall (game s) in
  let before := draws (trace (host s)) in
  let after := draws (trace (host s')) in
  (after <= S before)%nat /\
  (world (host s') = world (host s) \/
   world (host s') = calls cb 1 (world (host s))) /\
  (gate t (game s) = true ->
     after = S before /\
     (fst (tick t s), world (host s')) = cb (world (host s))) /\
  (gate t (game s) = false ->
     after = before /\
     (fst (tick t s), world (host s')) = (Normal tt, world (host s))) /\
  (forall f i : Q,
     frameOffset (game s) = Fin f -> fpsInterval (game s) = Fin i ->
     (0 < i)%Q -> (3 * i < inject_Z t - f)%Q ->
     after = S before /\
     world (host s') = calls cb 1 (world (host s)) /\
     (whole f -> whole i -> gate t (game s') = false)).
Proof.
  intros s' cb before after. unfold after, s'. rewrite tick_draws.
  fold before.
  pose proof (tick_invokes t s) as Hinv. fold cb in Hinv.
  assert (Hw : gate t (game s) = true ->
               world (host (snd (tick t s))) = calls cb 1 (world (host s))).
  { intros Hg. rewrite Hg in Hinv. unfold calls; cbn [Nat.iter nat_rect].
    rewrite <- Hinv. reflexivity. }
  split; [ destruct (gate _ _); lia | ].
  split.
  { destruct (gate t (game s)) eqn:Hg; [ right; auto | left ].
    injection Hinv as _ Hw'. exact Hw'. }
  split; [ intros Hg; rewrite Hg in *; split; [ lia | exact Hinv ] | ].
  split; [ intros Hg; rewrite Hg in *; split; [ lia | exact Hinv ] | ].
  intros f i Hf Hi Hpos Hlate.
  assert (Hg : gate t (game s) = true).
  { unfold gate. rewrite Hf, Hi. unfold JS.ofZ, JS.sub.
    apply gt_Fin. lra. }
  rewrite Hg. split; [ lia | ]. split; [ exact (Hw Hg) | ].
  intros _ _.
  rewrite tick_game, Hg. unfold gate, resynced; cbn -[JS.sub JS.rem JS.gt].
  rewrite Hf, Hi. unfold JS.ofZ, JS.sub, JS.rem.
  rewrite Qis_zero_false by lra.
  apply gt_Fin_false.
  destruct (@Qrem_bounds (inject_Z t - f) i Hpos) as (_ & Hlo & Hhi);
    [ lra | ].
  cbv zeta in Hlo, Hhi. lra.
Qed.

(** C7. No-fire frame condition: a tick whose gate does not pass returns
    normally, leaves [frameOffset], [fps], [fpsInterval], [timeOffset] and
    [drawCall] as they were, does not invoke the callback and does not
    touch its world; in the object it assigns [time], [timeDelta] and
    [timeInFrame] and nothing else.  (The request for the next animation
    frame is made on this tick as on every other.) *)
Theorem no_fire_frame_condition s t :
  gate t (game s) = false ->
  let g := game s in
  let s' := snd (tick t s) in
  fst (tick t s) = Normal tt /\
  game s' =
    mkGameLoop (fps g) (fpsInterval g) (drawCall g) (timeOffset g)
               (frameOffset g)
               (JS.ofZ t - timeOffset g)
               (JS.ofZ t - frameOffset g)
               (JS.ofZ t - timeOffset g - time g) /\
  draws (trace (host s')) = draws (trace (host s)) /\
  trace (host s') = trace (host s) ++ [EvRequestFrame; EvNow t] /\
  world (host s') = world (host s) /\
  frameRequests (host s') = S (frameRequests (host s)).
Proof.
  intros Hg g s'. unfold s'.
  rewrite tick_draws, tick_trace, tick_game, tick_requests, Hg.
  rewrite tick_eq; cbv zeta; rewrite Hg; cbn -[JS.sub].
  repeat split; lia.
Qed.


(** C10. No rollback on callback failure: the request for the next frame
    and the assignments to [time], [timeDelta], [timeInFrame] and
    [frameOffset] come before the call of [drawCall]: a firing tick is the
    call of [drawCall] in the state where all of them are done.  If the
    callback throws, the tick ends with that exception and with every one
    of these updates in place: the fields hold their new values and the
    request has been made (and logged before the call). *)
Theorem no_rollback_on_callback_failure s t e w :
  gate t (game s) = true ->
  drawCall (game s) (world (host s)) = (Throw e, w) ->
  let g := game s in
  let h := host s in
  let now := JS.ofZ t in
  let g' :=
    mkGameLoop (fps g) (fpsInterval g) (drawCall g) (timeOffset g)
               (now - ((now - frameOffset g) rem fpsInterval g))
               (now - timeOffset g)
               (now - frameOffset g)
               (now - timeOffset g - time g) in
  tick t s =
    hostOp (invoke (drawCall g))
           (mkSys g' (mkHost t (S (frameRequests h))
                             (trace h ++ [EvRequestFrame; EvNow t])
                             (world h))) /\
  tick t s =
    (Throw e,
     mkSys g' (mkHost t (S (frameRequests h))
                      (trace h ++ [EvRequestFrame; EvNow t; EvDraw]) w)).
Proof.
  intros Hg Hd; cbv zeta. rewrite tick_eq; cbv zeta. rewrite Hg, Hd.
  unfold hostOp, invoke, log; cbn -[JS.sub JS.rem JS.ofZ].
  rewrite Hd, <- app_assoc. split; reflexivity.
Qed.

(** C3 (as the code has it). Construction never fails: for every rate,
    zero and negative ones included, the constructor completes normally
    and initialises every field: [timeOffset] is the clock reading,
    [frameOffset], [time], [timeInFrame] and [timeDelta] are 0 and
    [fpsInterval] is [1000 / fps] in JavaScript arithmetic, which is
    [+Infinity] for rate 0.  For every rate above 0 the interval is
    [1000 / rate]. *)
Theorem construction_never_fails R cb h :
  constructor R cb h =
    (Normal (mkGameLoop R (Fin 1000 / R) cb (JS.ofZ (clock h))
                        (Fin 0) (Fin 0) (Fin 0) (Fin 0)),
     log (EvNow (clock h)) h) /\
  (forall e, fst (constructor R cb h) <> Throw e) /\
  (forall r, R = Fin r -> (0 < r)%Q -> Fin 1000 / R = Fin (1000 / r)) /\
  (forall r, R = Fin r -> (r == 0)%Q -> Fin 1000 / R = PInf) /\
  (forall r, R = Fin r -> (r < 0)%Q ->
     Fin 1000 / R = Fin (1000 / r) /\ (1000 / r < 0)%Q).
Proof.
  split; [ apply constructor_eq | ].
  split; [ intros e; rewrite constructor_eq; discriminate | ].
  split; [ intros r -> Hr; apply div_pos, Hr | ].
  split.
  - intros [n d] -> Hr. unfold Qeq in Hr; cbn in Hr.
    unfold JS.div, JS.Qis_zero; cbn.
    replace n with 0%Z by lia. reflexivity.
  - intros r -> Hr. split.
    + unfold JS.div. rewrite Qis_zero_false by lra. reflexivity.
    + assert (H : (0 < 1000 / - r)%Q) by (apply interval_pos; lra).
      assert (E : (1000 / - r == - (1000 / r))%Q) by (field; lra).
      lra.
Qed.

(** ** Frames after a tick *)

Lemma runLoop_trace s :
  exists l,
    trace (host (snd (runLoop s))) =
      trace (host s) ++ EvRequestFrame :: EvNow (clock (host s)) :: l.
Proof.
  rewrite runLoop_eq; cbv zeta.
  destruct (gate _ _); [ destruct (drawCall _ _) | ]; cbn; eauto.
Qed.

Lemma runLoop_requests s :
  frameRequests (host (snd (runLoop s))) = S (frameRequests (host s)).
Proof.
  rewrite runLoop_eq; cbv zeta.
  destruct (gate _ _); [ destruct (drawCall _ _) | ]; reflexivity.
Qed.

Lemma iter_runLoop_trace n s :
  exists l,
    trace (host (Nat.iter (S n) (fun s' => snd (runLoop s')) s)) =
      trace (host s) ++ EvRequestFrame :: EvNow (clock (host s)) :: l.
Proof.
  induction n as [ | n [l IH]].
  - apply runLoop_trace.
  - change (Nat.iter (S (S n)) (fun s' => snd (runLoop s')) s)
      with (snd (runLoop (Nat.iter (S n) (fun s' => snd (runLoop s')) s))).
    destruct (runLoop_trace (Nat.iter (S n) (fun s' => snd (runLoop s')) s))
      as [l' E].
    rewrite E, IH, <- app_assoc. cbn [app]. eauto.
Qed.

Lemma animationFrame_reruns t s n :
  frameRequests (host s) = S n ->
  (exists l,
     trace (host (animationFrame t s)) =
       trace (host s) ++ EvRequestFrame :: EvNow t :: l) /\
  (1 <= frameRequests (host (animationFrame t s)))%nat.
Proof.
  intros Hn. unfold animationFrame. rewrite Hn. split.
  - apply (iter_runLoop_trace n (takeRequests (atClock t s))).
  - change (Nat.iter (S n) (fun s' => snd (runLoop s'))
                     (takeRequests (atClock t s)))
      with (snd (runLoop (Nat.iter n (fun s' => snd (runLoop s'))
                                   (takeRequests (atClock t s))))).
    rewrite runLoop_requests. lia.
Qed.

(** With one callback registered, as in every state of the application
    after its first call of [runLoop], a frame is one tick. *)
Lemma animationFrame_one t s :
  frameRequests (host s) = 1%nat ->
  animationFrame t s = snd (tick t (takeRequests s)).
Proof. intros H. unfold animationFrame. rewrite H. reflexivity. Qed.

(** C6 (as the code has it). Callback failure policy: when the callback
    throws on a tick, [runLoop] does not catch it and the tick ends with
    that exception.  The loop is not stopped by it: the next animation
    frame was requested at the start of the tick, so the request is
    pending when the exception leaves, and at the next frame [runLoop]
    runs again, reads the clock and requests the frame after. *)
Theorem callback_failure_propagates_loop_continues s t e w :
  gate t (game s) = true ->
  drawCall (game s) (world (host s)) = (Throw e, w) ->
  let s' := snd (tick t s) in
  fst (tick t s) = Throw e /\
  frameRequests (host s') = S (frameRequests (host s)) /\
  forall t',
    (exists l,
       trace (host (animationFrame t' s')) =
         trace (host s') ++ EvRequestFrame :: EvNow t' :: l) /\
    (1 <= frameRequests (host (animationFrame t' s')))%nat.
Proof.
  intros Hg Hd s'.
  split; [ rewrite tick_eq; cbv zeta; rewrite Hg, Hd; reflexivity | ].
  split; [ apply tick_requests | ].
  intros t'. apply animationFrame_reruns with (n := frameRequests (host s)).
  apply tick_requests.
Qed.

(** ** Elapsed time along a run of ticks *)

Lemma tick_times t s :
  let g := game s in
  let g' := game (snd (tick t s)) in
  time g' = JS.ofZ t - timeOffset g /\
  timeDelta g' = time g' - time g /\
  timeOffset g' = timeOffset g.
Proof.
  cbv zeta. rewrite tick_game.
  destruct (gate _ _); repeat split.
Qed.

Lemma ticks_monotone ts :
  forall s (c c0 : Z) (q : Q),
    timeOffset (game s) = JS.ofZ c0 ->
    time (game s) = Fin q ->
    (q <= inject_Z c - inject_Z c0)%Q ->
    nondecreasing c ts = true ->
    forall i s1 s2,
      nth_error (s :: ticks ts s) i = Some s1 ->
      nth_error (s :: ticks ts s) (S i) = Some s2 ->
      (time (game s1) <=? time (game s2)) = true /\
      timeDelta (game s2) = time (game s2) - time (game s1) /\
      exists c', In c' ts /\ time (game s2) = JS.ofZ c' - JS.ofZ c0.
Proof.
  induction ts as [ | t ts IH]; intros s c c0 q Hoff Htime Hq Hnd i s1 s2 H1 H2.
  - destruct i; discriminate.
  - cbn [nondecreasing] in Hnd. apply andb_prop in Hnd as [Hct Hnd].
    apply Z.leb_le in Hct.
    destruct (tick_times t s) as (Ht & Hd & Ho). cbv zeta in Ht, Hd, Ho.
    cbn [ticks] in H1, H2.
    destruct i as [ | i].
    + cbn [nth_error] in H1, H2. injection H1 as <-. injection H2 as <-.
      split; [ | split; [ exact Hd | ] ].
      * rewrite Ht, Hoff, Htime. unfold JS.ofZ, JS.sub. apply le_Fin.
        rewrite Zle_Qle in Hct. lra.
      * exists t. split; [ left; reflexivity | ].
        rewrite Ht, Hoff; reflexivity.
    + cbn [nth_error] in H1, H2.
      destruct (IH (snd (tick t s)) t c0 (inject_Z t - inject_Z c0)%Q)
        with (i := i) (s1 := s1) (s2 := s2)
        as (Hle & Hdelta & c' & Hin & Hc'); try assumption.
      * rewrite Ho; exact Hoff.
      * rewrite Ht, Hoff; reflexivity.
      * lra.
      * split; [ exact Hle | ]. split; [ exact Hdelta | ].
        exists c'. split; [ right; exact Hin | exact Hc' ].
Qed.

(** C8. Monotonic elapsed time: along any run of ticks whose clock
    readings never decrease from the reading taken by the constructor,
    [time] never decreases from one state to the next (the first state is
    the constructed object), after each tick [time] is that tick's clock
    reading minus [timeOffset], and [timeDelta] is the new [time] minus
    the [time] left by the tick before. *)
Theorem monotonic_elapsed_time R cb h g h' ts :
  constructor R cb h = (Normal g, h') ->
  nondecreasing (clock h) ts = true ->
  let states := mkSys g h' :: ticks ts (mkSys g h') in
  forall i s1 s2,
    nth_error states i = Some s1 ->
    nth_error states (S i) = Some s2 ->
    (time (game s1) <=? time (game s2)) = true /\
    timeDelta (game s2) = time (game s2) - time (game s1) /\
    exists c, In c ts /\ time (game s2) = JS.ofZ c - timeOffset g.
Proof.
  intros Hc Hnd states i s1 s2 H1 H2.
  rewrite constructor_eq in Hc.
  assert (Eg : g = mkGameLoop R (Fin 1000 / R) cb (JS.ofZ (clock h))
                              (Fin 0) (Fin 0) (Fin 0) (Fin 0))
    by congruence.
  assert (Hoff : timeOffset g = JS.ofZ (clock h)) by (subst g; reflexivity).
  rewrite Hoff.
  apply (@ticks_monotone ts (mkSys g h') (clock h) (clock h) 0%Q)
    with (i := i); try assumption; try (subst g; reflexivity); try lra.
Qed.

End Properties.

(** * The application's instance *)

Section Instance.

Import Scenario.

Local Open Scope Z_scope.

Lemma fresh_constructed rate cb c0 :
  constructor rate cb (host0 c0) =
    (Normal (game (fresh rate cb c0)), host (fresh rate cb c0)).
Proof. reflexivity. Qed.

Lemma fresh_reachable rate cb c0 : reachable rate cb (fresh rate cb c0).
Proof. exact (reach_new (fresh_constructed rate cb c0)). Qed.

(** C5. Concrete scenario: rate 5, hence interval 200; the clock reads 0
    at construction and the ticks read 0, 16, 33, ..., 1000 (sixty-one
    ticks of a 60 Hz display, the first being the call made right after
    construction).  The callback is first invoked on the first tick whose
    reading exceeds 200, which is tick 13 at 216 (tick 12 reads exactly
    200 and the gate is strict); over the whole second it is invoked four
    times, at 216, 416, 616 and 816, against sixty-one ticks. *)
Theorem concrete_scenario_5Hz :
  let tickTimes := 0 :: refresh60 in
  length tickTimes = 61%nat /\
  firstn 4 tickTimes = [0; 16; 33; 50] /\
  last tickTimes 0 = 1000 /\
  nth_error tickTimes 12 = Some 200 /\
  nth_error tickTimes 13 = Some 216 /\
  forallb (fun t => t <=? 200) (firstn 13 tickTimes) = true /\
  match session (Fin 5) updateGrid 0 with
  | Some s =>
      fps (game s) = Fin 5 /\
      fpsInterval (game s) =n= Fin 200 /\
      drawTimes 0 (trace (host s)) = [216; 416; 616; 816] /\
      draws (trace (host s)) = 4%nat /\
      world (host s) = 4%nat /\
      frameOffset (game s) =n= Fin 800
  | None => False
  end.
Proof.
  vm_compute. repeat split; reflexivity.
Qed.

(** The same session under a clock that counts from the epoch: the first
    call of [runLoop] already draws. *)
Example session_under_epoch_clock :
  sessionDrawTimes 1700000000000 =
    map (Z.add 1700000000000) [0; 216; 416; 616; 816] /\
  sessionDrawTimes 1700000000100 =
    map (Z.add 1700000000100) [0; 116; 316; 516; 716; 916].
Proof. vm_compute. split; reflexivity. Qed.

(** C3, the claim as written, fails: rate 0 and rate -5 are accepted.
    The constructor returns an object with every field initialised; with
    rate 0 the interval is [+Infinity], with rate -5 it is negative. *)
Lemma invalid_rate_is_accepted :
  constructor (Fin 0) updateGrid (host0 1000) =
    (Normal (mkGameLoop (Fin 0) PInf updateGrid (JS.ofZ 1000)
                        (Fin 0) (Fin 0) (Fin 0) (Fin 0)),
     log (EvNow 1000) (host0 1000)) /\
  constructor (Fin (-5)) updateGrid (host0 1000) =
    (Normal (mkGameLoop (Fin (-5)) (Fin (1000 / -5)) updateGrid
                        (JS.ofZ 1000) (Fin 0) (Fin 0) (Fin 0) (Fin 0)),
     log (EvNow 1000) (host0 1000)) /\
  ~ (exists e : Err,
       fst (constructor (Fin 0) updateGrid (host0 1000)) = Throw e) /\
  ~ (exists e : Err,
       fst (constructor (Fin (-5)) updateGrid (host0 1000)) = Throw e).
Proof.
  split; [ reflexivity | ]. split; [ reflexivity | ].
  split; intros [e H]; discriminate H.
Qed.

(** C6, the claim as written, fails: with a callback that always throws,
    the first tick ends with the exception and one frame request stays
    registered; the next three frames run [runLoop] again and the callback
    is invoked on two of them. *)
Lemma failing_callback_does_not_stop_the_loop :
  let s0 := fresh (Fin 5) brokenDraw 1000 in
  let s1 := snd (tick 1000 s0) in
  let s2 := frames [1100; 1250; 1450] s1 in
  fst (tick 1000 s0) = Throw tt /\
  frameRequests (host s1) = 1%nat /\
  draws (trace (host s1)) = 1%nat /\
  frameRequests (host s2) = 1%nat /\
  draws (trace (host s2)) = 3%nat /\
  drawTimes 1000 (trace (host s2)) = [1000; 1250; 1450] /\
  trace (host s2) =
    trace (host s1) ++
    [EvRequestFrame; EvNow 1100;
     EvRequestFrame; EvNow 1250; EvDraw;
     EvRequestFrame; EvNow 1450; EvDraw].
Proof.
  vm_compute. repeat split; reflexivity.
Qed.

(** ** The general statements at the application's instance *)


(** C3 at rate 5: the interval is 1000 / 5. *)
Lemma construction_never_fails_witness :
  Fin 5 = Fin 5 /\ (0 < 5)%Q /\
  (Fin 1000 / Fin 5)%js = Fin (1000 / 5).
Proof.
  split; [ reflexivity | ]. split; [ reflexivity | ].
  destruct (construction_never_fails (Fin 5) updateGrid (host0 1000))
    as (_ & _ & H & _).
  apply H; reflexivity.
Defined.

(** C4 after a stall: the clock reads 1000 with the boundary at 0 and an
    interval of 200; one invocation (the step counter is 1), and the gate
    is closed afterwards. *)
Lemma at_most_one_fire_per_tick_witness :
  let s := fresh (Fin 5) updateGrid 1000 in
  frameOffset (game s) = Fin 0 /\
  fpsInterval (game s) = Fin (1000 / 5) /\
  (0 < 1000 / 5)%Q /\ (3 * (1000 / 5) < inject_Z 1000 - 0)%Q /\
  whole 0 /\ whole (1000 / 5) /\
  draws (trace (host (snd (tick 1000 s)))) = S (draws (trace (host s))) /\
  world (host (snd (tick 1000 s))) =
    calls (drawCall (game s)) 1 (world (host s)) /\
  gate 1000 (game (snd (tick 1000 s))) = false /\
  world (host (snd (tick 1000 s))) = 1%nat.
Proof.
  intros s.
  assert (Hf : frameOffset (game s) = Fin 0) by reflexivity.
  assert (Hi : fpsInterval (game s) = Fin (1000 / 5)) by reflexivity.
  assert (Hpos : (0 < 1000 / 5)%Q) by reflexivity.
  assert (Hlate : (3 * (1000 / 5) < inject_Z 1000 - 0)%Q) by reflexivity.
  assert (Hwf : whole 0) by (exists 0; reflexivity).
  assert (Hwi : whole (1000 / 5)) by (exists 200; reflexivity).
  split; [ exact Hf | ]. split; [ exact Hi | ].
  split; [ exact Hpos | ]. split; [ exact Hlate | ].
  split; [ exact Hwf | ]. split; [ exact Hwi | ].
  destruct (at_most_one_fire_per_tick s 1000) as (_ & _ & _ & _ & H).
  destruct (H 0%Q (1000 / 5)%Q Hf Hi Hpos Hlate) as (Hd & Hw & Hg).
  split; [ exact Hd | ]. split; [ exact Hw | ].
  split; [ exact (Hg Hwf Hwi) | vm_compute; reflexivity ].
Defined.

(** C6 (as the code has it) with the throwing callback. *)
Lemma callback_failure_propagates_loop_continues_witness :
  let s := fresh (Fin 5) brokenDraw 1000 in
  gate 1000 (game s) = true /\
  drawCall (game s) (world (host s)) = (Throw tt, 1%nat) /\
  fst (tick 1000 s) = Throw tt /\
  frameRequests (host (snd (tick 1000 s))) = 1%nat.
Proof.
  intros s.
  assert (Hg : gate 1000 (game s) = true) by (vm_compute; reflexivity).
  assert (Hd : drawCall (game s) (world (host s)) = (Throw tt, 1%nat))
    by reflexivity.
  split; [ exact Hg | ]. split; [ exact Hd | ].
  destruct (callback_failure_propagates_loop_continues s 1000 Hg Hd)
    as (H1 & H2 & _).
  split; [ exact H1 | exact H2 ].
Defined.

(** C7 on the tick at 16 of the scenario: the gate is closed. *)
Lemma no_fire_frame_condition_witness :
  let s := fresh (Fin 5) updateGrid 0 in
  gate 16 (game s) = false /\
  fst (tick 16 s) = Normal tt /\
  frameOffset (game (snd (tick 16 s))) = frameOffset (game s) /\
  world (host (snd (tick 16 s))) = world (host s).
Proof.
  intros s.
  assert (Hg : gate 16 (game s) = false) by (vm_compute; reflexivity).
  split; [ exact Hg | ].
  destruct (no_fire_frame_condition s 16 Hg) as (H1 & H2 & _ & _ & H5 & _).
  split; [ exact H1 | ]. split; [ rewrite H2; reflexivity | exact H5 ].
Defined.

(** C8 on the first ticks of the scenario. *)
Lemma monotonic_elapsed_time_witness :
  let s := fresh (Fin 5) updateGrid 0 in
  let ts := [0; 16; 33] in
  constructor (Fin 5) updateGrid (host0 0) = (Normal (game s), host s) /\
  nondecreasing (clock (host0 0)) ts = true /\
  (time (game (snd (tick 16 (snd (tick 0 s))))) <=?
   time (game (snd (tick 33 (snd (tick 16 (snd (tick 0 s))))))))%js = true.
Proof.
  intros s ts.
  assert (Hc : constructor (Fin 5) updateGrid (host0 0)
               = (Normal (game s), host s)) by reflexivity.
  assert (Hnd : nondecreasing (clock (host0 0)) ts = true) by reflexivity.
  split; [ exact Hc | ]. split; [ exact Hnd | ].
  exact (proj1 (monotonic_elapsed_time ts Hc Hnd 2
                  (s1 := snd (tick 16 (snd (tick 0 s))))
                  (s2 := snd (tick 33 (snd (tick 16 (snd (tick 0 s))))))
                  eq_refl eq_refl)).
Defined.


(** C10 with the throwing callback: the boundary has moved to 1000 and
    the request is registered although the tick ended in an exception. *)
Lemma no_rollback_on_callback_failure_witness :
  let s := fresh (Fin 5) brokenDraw 1000 in
  gate 1000 (game s) = true /\
  drawCall (game s) (world (host s)) = (Throw tt, 1%nat) /\
  fst (tick 1000 s) = Throw tt /\
  frameRequests (host (snd (tick 1000 s))) = 1%nat /\
  (frameOffset (game (snd (tick 1000 s))) =n= Fin 1000)%js.
Proof.
  intros s.
  assert (Hg : gate 1000 (game s) = true) by (vm_compute; reflexivity).
  assert (Hd : drawCall (game s) (world (host s)) = (Throw tt, 1%nat))
    by reflexivity.
  split; [ exact Hg | ]. split; [ exact Hd | ].
  rewrite (proj2 (no_rollback_on_callback_failure s 1000 Hg Hd)).
  split; [ reflexivity | ]. split; [ reflexivity | ].
  vm_compute. reflexivity.
Defined.

End Instance.

(** * Further properties of the loop *)

Section Pacing.

Variables World Exn : Type.

Implicit Types (s : Sys World Exn) (g : GameLoop World Exn)
               (h : Host World) (cb : Callback World Exn)
               (t : Z) (R : number).

Local Open Scope Q_scope.

(** One firing tick, in rationals: the boundary [f] moves to [t - res]
    with [res] the remainder of [t - f] by [i]. *)
Lemma resync_step g t (f i : Q) :
  frameOffset g = Fin f -> fpsInterval g = Fin i -> 0 < i ->
  gate t g = true ->
  exists k : Z,
    (1 <= k)%Z /\
    frameOffset (resynced t g) =
      Fin (inject_Z t - (inject_Z t - f - i * inject_Z k)) /\
    0 <= inject_Z t - f - i * inject_Z k /\
    inject_Z t - f - i * inject_Z k < i.
Proof.
  intros Hf Hi Hpos Hg.
  assert (Hlt : i < inject_Z t - f).
  { unfold gate in Hg. rewrite Hf, Hi in Hg. apply gt_Fin in Hg. exact Hg. }
  destruct (Qrem_bounds Hpos Hlt) as (Hk & Hlo & Hhi). cbv zeta in Hlo, Hhi.
  exists (JS.Qtrunc ((inject_Z t - f) / i)).
  split; [ exact Hk | ]. split; [ | split; assumption ].
  unfold resynced; cbn -[JS.sub JS.rem JS.ofZ]. rewrite Hf, Hi.
  unfold JS.ofZ, JS.sub, JS.rem. rewrite Qis_zero_false by lra.
  reflexivity.
Qed.

Lemma runLoop_game s :
  game (snd (runLoop s)) =
    if gate (clock (host s)) (game s)
    then resynced (clock (host s)) (game s)
    else timed (clock (host s)) (game s).
Proof.
  rewrite runLoop_eq; cbv zeta.
  destruct (gate _ _); [ destruct (drawCall _ _) | ]; reflexivity.
Qed.

Lemma runLoop_aligned s i :
  fpsInterval (game s) = Fin i -> 0 < i ->
  aligned i (game s) -> aligned i (game (snd (runLoop s))).
Proof.
  intros Hi Hpos (k & f & Hk & Hf & Hfk). rewrite runLoop_game.
  destruct (gate _ _) eqn:Hg.
  - destruct (@resync_step (game s) (clock (host s)) f i Hf Hi Hpos Hg)
      as (k' & Hk' & Hf' & _ & _).
    exists (k + k')%Z, (inject_Z (clock (host s))
                        - (inject_Z (clock (host s)) - f - i * inject_Z k')).
    split; [ lia | ]. split; [ exact Hf' | ].
    rewrite inject_Z_plus. lra.
  - exists k, f. repeat split; assumption.
Qed.

Lemma iter_aligned n s i :
  fpsInterval (game s) = Fin i -> 0 < i -> aligned i (game s) ->
  aligned i (game (Nat.iter n (fun s' => snd (runLoop s')) s)).
Proof.
  intros Hi Hpos Ha. induction n as [ | n IH]; [ exact Ha | ].
  change (Nat.iter (S n) (fun s' => snd (runLoop s')) s)
    with (snd (runLoop (Nat.iter n (fun s' => snd (runLoop s')) s))).
  apply runLoop_aligned; [ | exact Hpos | exact IH ].
  destruct (iter_runLoop_params n s) as (_ & E & _).
  rewrite E; exact Hi.
Qed.

Lemma reachable_aligned (r : Q) cb s :
  0 < r -> reachable (Fin r) cb s -> aligned (1000 / r) (game s).
Proof.
  intros Hpos Hr.
  assert (Hipos : 0 < 1000 / r) by (apply interval_pos, Hpos).
  induction Hr as [h g h' Hc | s t Hr IH | s Hr IH | s t Hr IH].
  - rewrite constructor_eq in Hc.
    assert (Eg : frameOffset g = Fin 0) by (injection Hc as <- _; reflexivity).
    exists 0%Z, 0. split; [ lia | ]. split; [ exact Eg | ].
    change (inject_Z 0) with 0. lra.
  - destruct (reachable_params Hr) as (_ & Hi & _).
    rewrite (div_pos Hpos) in Hi.
    unfold tick. apply runLoop_aligned; assumption.
  - exact IH.
  - destruct (reachable_params Hr) as (_ & Hi & _).
    rewrite (div_pos Hpos) in Hi.
    unfold animationFrame. apply iter_aligned; assumption.
Qed.

Lemma whole_aligned (i : Q) g :
  whole i -> aligned i g ->
  exists f, frameOffset g = Fin f /\ whole f.
Proof.
  intros [iz Hi] (k & f & _ & Hf & Hfk).
  exists f. split; [ exact Hf | ]. exists (k * iz)%Z.
  rewrite inject_Z_mult, Hfk, Hi. reflexivity.
Qed.

(** X1. The boundaries lie on a fixed grid: for a positive rate whose
    interval [1000 / rate] is a whole number of milliseconds, in every
    state the scheduler can reach [frameOffset] is a whole number and a
    whole, non-negative multiple of the interval. *)
Theorem boundary_on_interval_grid (r : Q) cb s :
  0 < r -> whole (1000 / r) -> reachable (Fin r) cb s ->
  aligned (1000 / r) (game s) /\
  exists f, frameOffset (game s) = Fin f /\ whole f.
Proof.
  intros Hpos Hw Hr.
  pose proof (reachable_aligned Hpos Hr) as Ha.
  split; [ exact Ha | ]. exact (whole_aligned Hw Ha).
Qed.


Lemma last_cons (A : Type) (a d : A) (l : list A) :
  last (a :: l) d = last l a.
Proof.
  revert a d; induction l as [ | b l IH]; intros a d; [ reflexivity | ].
  change (last (a :: b :: l) d) with (last (b :: l) d).
  rewrite (IH b d), (IH b a). reflexivity.
Qed.

Lemma tick_interval t s :
  fpsInterval (game (snd (tick t s))) = fpsInterval (game s).
Proof.
  unfold tick. destruct (runLoop_params (atClock t s)) as (_ & E & _).
  exact E.
Qed.

Lemma tick_drawCall t s :
  drawCall (game (snd (tick t s))) = drawCall (game s).
Proof.
  unfold tick. destruct (runLoop_params (atClock t s)) as (_ & _ & E & _).
  exact E.
Qed.

Lemma calls_S cb n (w : World) :
  calls cb (S n) w = calls cb n (snd (cb w)).
Proof. unfold calls. rewrite Nat.iter_succ_r. reflexivity. Qed.

Lemma tick_world t s :
  world (host (snd (tick t s))) =
    if gate t (game s)
    then snd (drawCall (game s) (world (host s)))
    else world (host s).
Proof.
  pose proof (tick_invokes t s) as H.
  destruct (gate t (game s)); apply (f_equal snd) in H; exact H.
Qed.

(** X2. The loop is a rate limiter, for a whole-number interval and
    boundary: along any run of ticks whose clock never decreases and
    starts at or after the boundary, the callback is applied to its world
    [n] times in a row with [n] times the interval at most the distance
    the boundary has moved, and the boundary, a whole number throughout,
    never passes the last clock reading.  So [n] invocations need at
    least [n] intervals of time. *)
Theorem invocations_bounded_by_elapsed_time ts :
  forall s (i f0 : Q) (c : Z),
    fpsInterval (game s) = Fin i -> 0 < i -> whole i ->
    frameOffset (game s) = Fin f0 -> whole f0 -> f0 <= inject_Z c ->
    nondecreasing c ts = true ->
    exists (n : nat) (f1 : Q),
      draws (trace (host (runTicks ts s))) =
        (draws (trace (host s)) + n)%nat /\
      world (host (runTicks ts s)) =
        calls (drawCall (game s)) n (world (host s)) /\
      frameOffset (game (runTicks ts s)) = Fin f1 /\
      whole f1 /\
      inject_Z (Z.of_nat n) * i <= f1 - f0 /\
      f1 <= inject_Z (last ts c).
Proof.
  induction ts as [ | t ts IH]; intros s i f0 c Hi Hpos Hwi Hf Hwf Hfc Hnd.
  - exists 0%nat, f0. cbn [runTicks fold_left last].
    repeat split; try assumption; try lia.
    change (inject_Z (Z.of_nat 0)) with 0. lra.
  - cbn [nondecreasing] in Hnd. apply andb_prop in Hnd as [Hct Hnd].
    apply Z.leb_le in Hct. rewrite Zle_Qle in Hct.
    change (runTicks (t :: ts) s) with (runTicks ts (snd (tick t s))).
    rewrite last_cons.
    pose proof (tick_interval t s) as Hi'. rewrite Hi in Hi'.
    pose proof (tick_draws t s) as Hd.
    pose proof (tick_game t s) as Hgm.
    pose proof (tick_world t s) as Hwd.
    pose proof (tick_drawCall t s) as Hcb.
    destruct (gate t (game s)) eqn:Hg.
    + destruct (@resync_step (game s) t f0 i Hf Hi Hpos Hg)
        as (k & Hk & Hf' & Hlo & Hhi).
      rewrite <- Hgm in Hf'.
      assert (Hkq : 1 <= inject_Z k)
        by (change 1 with (inject_Z 1); rewrite <- Zle_Qle; exact Hk).
      assert (Hwf' : whole (inject_Z t - (inject_Z t - f0 - i * inject_Z k))).
      { destruct Hwi as [iz Hiz]. destruct Hwf as [fz Hfz].
        exists (fz + iz * k)%Z.
        rewrite inject_Z_plus, inject_Z_mult, <- Hiz, <- Hfz. ring. }
      destruct (IH (snd (tick t s)) i _ t Hi' Hpos Hwi Hf' Hwf')
        as (n & f1 & Hn & Hw & Hf1 & Hw1 & Hb & Hl);
        [ lra | exact Hnd | ].
      exists (S n), f1. split; [ rewrite Hn, Hd; lia | ].
      split; [ rewrite Hw, Hcb, Hwd, calls_S; reflexivity | ].
      split; [ exact Hf1 | ]. split; [ exact Hw1 | ]. split; [ | exact Hl ].
      rewrite Nat2Z.inj_succ. unfold Z.succ. rewrite inject_Z_plus.
      change (inject_Z 1) with 1. nra.
    + assert (Hf' : frameOffset (game (snd (tick t s))) = Fin f0)
        by (rewrite Hgm; exact Hf).
      destruct (IH (snd (tick t s)) i f0 t Hi' Hpos Hwi Hf' Hwf)
        as (n & f1 & Hn & Hw & Hf1 & Hw1 & Hb & Hl);
        [ lra | exact Hnd | ].
      exists n, f1. split; [ rewrite Hn, Hd; lia | ].
      split; [ rewrite Hw, Hcb, Hwd; reflexivity | ].
      split; [ exact Hf1 | ]. split; [ exact Hw1 | ]. split; assumption.
Qed.

(** X3. When the next invocation can come, for a whole-number interval
    and boundary: after a tick at [t] that fired, a tick at [t'] applies
    the callback whenever [t'] is more than one interval after [t], and
    leaves the world alone when the clock has not advanced past [t]. *)
Theorem next_fire_window s t t' (f i : Q) :
  frameOffset (game s) = Fin f -> whole f ->
  fpsInterval (game s) = Fin i -> whole i -> 0 < i ->
  gate t (game s) = true ->
  let s' := snd (tick t s) in
  let s'' := snd (tick t' s') in
  (i < inject_Z t' - inject_Z t ->
     gate t' (game s') = true /\
     (fst (tick t' s'), world (host s'')) =
       drawCall (game s) (world (host s'))) /\
  ((t' <= t)%Z ->
     gate t' (game s') = false /\
     (fst (tick t' s'), world (host s'')) = (Normal tt, world (host s'))).
Proof.
  intros Hf _ Hi _ Hpos Hg s' s''.
  destruct (@resync_step (game s) t f i Hf Hi Hpos Hg)
    as (k & Hk & Hf' & Hlo & Hhi).
  assert (Hgm : game s' = resynced t (game s))
    by (unfold s'; rewrite tick_game, Hg; reflexivity).
  assert (Hi' : fpsInterval (game s') = Fin i)
    by (unfold s'; rewrite tick_interval; exact Hi).
  rewrite <- Hgm in Hf'.
  pose proof (tick_invokes t' s') as Hinv. fold s'' in Hinv.
  unfold s' in Hinv at 3. rewrite tick_drawCall in Hinv. fold s' in Hinv.
  split; intros H.
  - assert (Hg' : gate t' (game s') = true).
    { unfold gate. rewrite Hf', Hi'. unfold JS.ofZ, JS.sub.
      apply gt_Fin. lra. }
    rewrite Hg' in Hinv. split; [ exact Hg' | exact Hinv ].
  - assert (Hg' : gate t' (game s') = false).
    { unfold gate. rewrite Hf', Hi'. unfold JS.ofZ, JS.sub.
      apply gt_Fin_false. rewrite Zle_Qle in H. lra. }
    rewrite Hg' in Hinv. split; [ exact Hg' | exact Hinv ].
Qed.

(** ** The registration count *)

Lemma iter_requests n s :
  frameRequests (host (Nat.iter n (fun s' => snd (runLoop s')) s)) =
    (n + frameRequests (host s))%nat.
Proof.
  induction n as [ | n IH]; [ reflexivity | ].
  change (Nat.iter (S n) (fun s' => snd (runLoop s')) s)
    with (snd (runLoop (Nat.iter n (fun s' => snd (runLoop s')) s))).
  rewrite runLoop_requests, IH. reflexivity.
Qed.

Lemma animationFrame_requests t s :
  frameRequests (host (animationFrame t s)) = frameRequests (host s).
Proof.
  unfold animationFrame. rewrite iter_requests. cbn. lia.
Qed.

Lemma frames_requests ts s :
  frameRequests (host (frames ts s)) = frameRequests (host s).
Proof.
  revert s; induction ts as [ | t ts IH]; intros s; [ reflexivity | ].
  change (frames (t :: ts) s) with (frames ts (animationFrame t s)).
  rewrite IH. apply animationFrame_requests.
Qed.

(** X4. The loop neither stops nor multiplies: an animation frame leaves
    as many callbacks registered as it found, whatever the callback does
    (throwing included).  Started the way the application starts it, with
    nothing registered before, the loop has exactly one callback
    registered after the start and after every frame. *)
Theorem one_registration_forever R cb h ts :
  (forall t s, frameRequests (host (animationFrame t s))
               = frameRequests (host s)) /\
  match main R cb h with
  | Some s =>
      frameRequests (host s) = S (frameRequests h) /\
      frameRequests (host (frames ts s)) = S (frameRequests h)
  | None => False
  end.
Proof.
  split; [ intros t s; apply animationFrame_requests | ].
  unfold main. rewrite constructor_eq.
  rewrite frames_requests, runLoop_requests. split; reflexivity.
Qed.

(** ** Degenerate rates *)

Lemma gt_PInf (a : number) : JS.gt a PInf = false.
Proof. destruct a; reflexivity. Qed.

Lemma gt_NaN_r (a : number) : JS.gt a NaN = false.
Proof. destruct a; reflexivity. Qed.

Lemma runLoop_closed_gate s :
  fpsInterval (game s) = PInf \/ fpsInterval (game s) = NaN ->
  draws (trace (host (snd (runLoop s)))) = draws (trace (host s)) /\
  world (host (snd (runLoop s))) = world (host s).
Proof.
  intros Hi. rewrite runLoop_eq; cbv zeta.
  assert (Hg : gate (clock (host s)) (game s) = false).
  { unfold gate. destruct Hi as [-> | ->]; [ apply gt_PInf | apply gt_NaN_r ]. }
  rewrite Hg; cbn [snd host trace world]. rewrite draws_app.
  split; [ cbn; lia | reflexivity ].
Qed.

Lemma iter_closed_gate n s :
  fpsInterval (game s) = PInf \/ fpsInterval (game s) = NaN ->
  draws (trace (host (Nat.iter n (fun s' => snd (runLoop s')) s)))
    = draws (trace (host s)) /\
  world (host (Nat.iter n (fun s' => snd (runLoop s')) s))
    = world (host s).
Proof.
  intros Hi. induction n as [ | n [IHd IHw]]; [ split; reflexivity | ].
  change (Nat.iter (S n) (fun s' => snd (runLoop s')) s)
    with (snd (runLoop (Nat.iter n (fun s' => snd (runLoop s')) s))).
  destruct (runLoop_closed_gate
              (Nat.iter n (fun s' => snd (runLoop s')) s)) as [Hd Hw].
  { destruct (iter_runLoop_params n s) as (_ & E & _). rewrite E. exact Hi. }
  rewrite Hd, Hw. split; assumption.
Qed.

Lemma frames_closed_gate ts :
  forall s,
    fpsInterval (game s) = PInf \/ fpsInterval (game s) = NaN ->
    draws (trace (host (frames ts s))) = draws (trace (host s)) /\
    world (host (frames ts s)) = world (host s).
Proof.
  induction ts as [ | t ts IH]; intros s Hi; [ split; reflexivity | ].
  change (frames (t :: ts) s) with (frames ts (animationFrame t s)).
  destruct (IH (animationFrame t s)) as [Hd Hw].
  { destruct (animationFrame_params t s) as (_ & E & _). rewrite E. exact Hi. }
  rewrite Hd, Hw. unfold animationFrame.
  apply (@iter_closed_gate _ (takeRequests (atClock t s))). exact Hi.
Qed.

Lemma runTicks_closed_gate ts :
  forall s,
    fpsInterval (game s) = PInf \/ fpsInterval (game s) = NaN ->
    draws (trace (host (runTicks ts s))) = draws (trace (host s)) /\
    world (host (runTicks ts s)) = world (host s).
Proof.
  induction ts as [ | t ts IH]; intros s Hi; [ split; reflexivity | ].
  change (runTicks (t :: ts) s) with (runTicks ts (snd (tick t s))).
  destruct (IH (snd (tick t s))) as [Hd Hw].
  { rewrite tick_interval. exact Hi. }
  rewrite Hd, Hw. unfold tick.
  destruct (runLoop_closed_gate (atClock t s)) as [Hd' Hw']; [ exact Hi | ].
  rewrite Hd', Hw'. split; reflexivity.
Qed.

(** X5. Rate 0 (the positive zero) and rate NaN switch the drawing off
    without a word: the interval is [+Infinity] or NaN, the gate never
    passes, and over any frames and over any run of calls of [runLoop]
    the callback is never invoked: no draw is logged and its world stays
    as it was. *)
Theorem zero_or_nan_rate_never_draws R cb s ts :
  R = NaN \/ (exists r : Q, R = Fin r /\ r == 0) ->
  reachable R cb s ->
  (draws (trace (host (frames ts s))) = draws (trace (host s)) /\
   world (host (frames ts s)) = world (host s)) /\
  (draws (trace (host (runTicks ts s))) = draws (trace (host s)) /\
   world (host (runTicks ts s)) = world (host s)).
Proof.
  intros HR Hr.
  assert (Hi : fpsInterval (game s) = PInf \/ fpsInterval (game s) = NaN).
  { destruct (reachable_params Hr) as (_ & Hi & _). rewrite Hi.
    destruct HR as [-> | ([n d] & -> & Hz)]; [ right; reflexivity | left ].
    unfold Qeq in Hz; cbn in Hz. unfold JS.div, JS.Qis_zero; cbn.
    replace n with 0%Z by lia. reflexivity. }
  split; [ apply frames_closed_gate | apply runTicks_closed_gate ]; exact Hi.
Qed.

Lemma Qtrunc_nonpos (q : Q) : q <= 0 -> JS.Qtrunc q = Qceiling q.
Proof.
  destruct q as [n d]; unfold Qle, JS.Qtrunc, Qceiling, Qfloor; cbn.
  intros H.
  replace n with (- - n)%Z at 1 by lia.
  rewrite Z.quot_opp_l by lia.
  rewrite Z.quot_div_nonneg by lia. reflexivity.
Qed.

(** The remainder of a non-negative dividend by a negative divisor is
    non-negative. *)
Lemma Qrem_nonneg_negative_divisor (x y : Q) :
  y < 0 -> 0 <= x -> 0 <= x - y * inject_Z (JS.Qtrunc (x / y)).
Proof.
  intros Hy Hx.
  assert (Hq : x / y <= 0).
  { assert (E : x / y == - (x / - y)) by (field; lra).
    assert (0 <= x / - y) by (apply Qle_shift_div_l; lra).
    lra. }
  rewrite (Qtrunc_nonpos Hq).
  pose proof (Qle_ceiling (x / y)) as Hc.
  assert (Hx' : x == (x / y) * y) by (field; lra).
  set (q := x / y) in *. set (k := inject_Z (Qceiling q)) in *.
  nra.
Qed.

(** X6. A negative rate takes the limiter away: the interval is negative,
    and along any run of ticks whose clock never decreases and starts at
    or after the boundary (for a new object: at or after 0) the callback is
    invoked on every single tick: a draw is logged for each, and the
    world ends as the callback applied to it once per tick. *)
Theorem negative_rate_draws_on_every_tick ts :
  forall s (i f0 : Q) (c : Z),
    fpsInterval (game s) = Fin i -> i < 0 ->
    frameOffset (game s) = Fin f0 -> f0 <= inject_Z c ->
    nondecreasing c ts = true ->
    draws (trace (host (runTicks ts s))) =
      (draws (trace (host s)) + length ts)%nat /\
    world (host (runTicks ts s)) =
      calls (drawCall (game s)) (length ts) (world (host s)).
Proof.
  induction ts as [ | t ts IH]; intros s i f0 c Hi Hneg Hf Hfc Hnd.
  - cbn [runTicks fold_left length]. split; [ lia | reflexivity ].
  - cbn [nondecreasing] in Hnd. apply andb_prop in Hnd as [Hct Hnd].
    apply Z.leb_le in Hct. rewrite Zle_Qle in Hct.
    change (runTicks (t :: ts) s) with (runTicks ts (snd (tick t s))).
    assert (Hg : gate t (game s) = true).
    { unfold gate. rewrite Hf, Hi. unfold JS.ofZ, JS.sub.
      apply gt_Fin. lra. }
    pose proof (tick_interval t s) as Hi'. rewrite Hi in Hi'.
    pose proof (tick_draws t s) as Hd. rewrite Hg in Hd.
    pose proof (tick_world t s) as Hwd. rewrite Hg in Hwd.
    assert (Hf' : frameOffset (game (snd (tick t s))) =
                  Fin (inject_Z t - (inject_Z t - f0
                       - i * inject_Z (JS.Qtrunc ((inject_Z t - f0) / i))))).
    { rewrite tick_game, Hg. unfold resynced; cbn -[JS.sub JS.rem JS.ofZ].
      rewrite Hf, Hi. unfold JS.ofZ, JS.sub, JS.rem.
      rewrite Qis_zero_false by lra. reflexivity. }
    destruct (IH (snd (tick t s)) i _ t Hi' Hneg Hf') as [Hn Hw];
      [ | exact Hnd | ].
    + assert (0 <= inject_Z t - f0
                   - i * inject_Z (JS.Qtrunc ((inject_Z t - f0) / i)))
        by (apply Qrem_nonneg_negative_divisor; lra).
      lra.
    + split; [ rewrite Hn, Hd; cbn [length]; lia | ].
      rewrite Hw, tick_drawCall, Hwd. cbn [length]. rewrite calls_S.
      reflexivity.
Qed.

(** ** A boundary that is not a number *)




End Pacing.

(** * The callback and the loop together *)

Section Composition.

Variables World Exn : Type.

Implicit Types (s : Sys World Exn) (cb : Callback World Exn) (t : Z).

Lemma calls_succ cb n (w : World) :
  calls cb (S n) w = calls cb n (snd (cb w)).
Proof. unfold calls. rewrite Nat.iter_succ_r. reflexivity. Qed.

Lemma calls_add cb n m (w : World) :
  calls cb (n + m) w = calls cb m (calls cb n w).
Proof.
  unfold calls. rewrite Nat.add_comm, Nat.iter_add. reflexivity.
Qed.

Lemma runLoop_world s :
  exists n,
    draws (trace (host (snd (runLoop s)))) =
      (draws (trace (host s)) + n)%nat /\
    world (host (snd (runLoop s))) =
      calls (drawCall (game s)) n (world (host s)).
Proof.
  rewrite runLoop_eq; cbv zeta.
  destruct (gate _ _).
  - exists 1%nat. destruct (drawCall (game s) (world (host s))) as [r w] eqn:E.
    cbn [snd host trace world]. rewrite draws_app. split; [ reflexivity | ].
    unfold calls; cbn. rewrite E. reflexivity.
  - exists 0%nat. cbn [snd host trace world]. rewrite draws_app.
    split; [ cbn; lia | reflexivity ].
Qed.

Lemma iter_world k s :
  exists n,
    draws (trace (host (Nat.iter k (fun s' => snd (runLoop s')) s))) =
      (draws (trace (host s)) + n)%nat /\
    world (host (Nat.iter k (fun s' => snd (runLoop s')) s)) =
      calls (drawCall (game s)) n (world (host s)).
Proof.
  induction k as [ | k (n & Hd & Hw)].
  - exists 0%nat. split; [ cbn; lia | reflexivity ].
  - change (Nat.iter (S k) (fun s' => snd (runLoop s')) s)
      with (snd (runLoop (Nat.iter k (fun s' => snd (runLoop s')) s))).
    destruct (runLoop_world (Nat.iter k (fun s' => snd (runLoop s')) s))
      as (m & Hd' & Hw').
    destruct (iter_runLoop_params k s) as (_ & _ & Ecb & _).
    exists (n + m)%nat. rewrite Hd', Hd, Hw', Hw, Ecb, calls_add.
    split; [ lia | reflexivity ].
Qed.

Lemma frames_world ts :
  forall s,
    exists n,
      draws (trace (host (frames ts s))) =
        (draws (trace (host s)) + n)%nat /\
      world (host (frames ts s)) =
        calls (drawCall (game s)) n (world (host s)).
Proof.
  induction ts as [ | t ts IH]; intros s.
  - exists 0%nat. split; [ cbn; lia | reflexivity ].
  - change (frames (t :: ts) s) with (frames ts (animationFrame t s)).
    destruct (IH (animationFrame t s)) as (m & Hd' & Hw').
    destruct (iter_world (frameRequests (host s)) (takeRequests (atClock t s)))
      as (n & Hd & Hw).
    fold (animationFrame t s) in Hd, Hw.
    destruct (animationFrame_params t s) as (_ & _ & Ecb & _).
    exists (n + m)%nat. rewrite Hd', Hd, Hw', Hw, Ecb, calls_add.
    cbn [takeRequests atClock setClock game host trace world].
    split; [ lia | reflexivity ].
Qed.

(** X8. The world is the callback's doing and nothing else: over any
    frames, and over any run of direct calls of [runLoop], the world of
    the callback ends as the callback applied to it as many times as draws
    were logged, one after the other; the loop itself never touches it. *)
Theorem world_is_callback_iterated ts s :
  (exists n,
     draws (trace (host (frames ts s))) =
       (draws (trace (host s)) + n)%nat /\
     world (host (frames ts s)) =
       calls (drawCall (game s)) n (world (host s))) /\
  (exists n,
     draws (trace (host (runTicks ts s))) =
       (draws (trace (host s)) + n)%nat /\
     world (host (runTicks ts s)) =
       calls (drawCall (game s)) n (world (host s))).
Proof.
  split; [ apply frames_world | ].
  revert s; induction ts as [ | t ts IH]; intros s.
  - exists 0%nat. split; [ cbn; lia | reflexivity ].
  - change (runTicks (t :: ts) s) with (runTicks ts (snd (tick t s))).
    destruct (IH (snd (tick t s))) as (m & Hd' & Hw').
    destruct (runLoop_world (atClock t s)) as (n & Hd & Hw).
    fold (tick t s) in Hd, Hw.
    destruct (runLoop_params (atClock t s)) as (_ & _ & Ecb & _).
    fold (tick t s) in Ecb.
    exists (n + m)%nat. rewrite Hd', Hd, Hw', Hw, Ecb, calls_add.
    cbn [atClock setClock game host trace world].
    split; [ lia | reflexivity ].
Qed.

End Composition.

(** * Game of Life on two buffers *)

Section GameOfLife.

Import CGoL.

Variable computeMain : Buffer -> Buffer -> Buffer.

Lemma mod2_odd (n : nat) : (n mod 2 = Nat.b2n (Nat.odd n))%nat.
Proof. rewrite <- Nat.bit0_mod, Nat.bit0_odd. reflexivity. Qed.

Lemma updateGrid_eq (d : Gpu) :
  updateGrid computeMain d =
    (Normal tt,
     mkGpu (S (step d))
           (write (previous (step d))
                  (computeMain (read (current (step d)) (storage d))
                               (read (previous (step d)) (storage d)))
                  (storage d))
           (Some (computeMain (read (current (step d)) (storage d))
                              (read (previous (step d)) (storage d))))
           (S (submitted d))).
Proof.
  destruct d as [n [a b] c k].
  unfold updateGrid, bind, get, modify, bindGroupAt, current, previous.
  cbn [step storage onCanvas submitted].
  rewrite (mod2_odd n), <- Nat.negb_even.
  destruct (Nat.even n) eqn:E; cbn [negb Nat.b2n nth_error bindGroups];
    unfold incrStep; cbn [step storage onCanvas submitted];
    rewrite (mod2_odd (S n)), Nat.odd_succ, E; reflexivity.
Qed.

Lemma current_succ n : current (S n) = previous n.
Proof.
  unfold current, previous. rewrite Nat.even_succ, <- Nat.negb_even.
  destruct (Nat.even n); reflexivity.
Qed.

Lemma previous_succ n : previous (S n) = current n.
Proof.
  unfold current, previous. rewrite Nat.even_succ, <- Nat.negb_even.
  destruct (Nat.even n); reflexivity.
Qed.

Lemma read_write_previous n v (st : Storage) :
  read (previous n) (write (previous n) v st) = v /\
  read (current n) (write (previous n) v st) = read (current n) st.
Proof.
  unfold current, previous. destruct (Nat.even n); split; reflexivity.
Qed.

(** X9. Ping-pong: [updateGrid] never throws; its compute pass reads the
    buffer holding the current generation and writes the other one, the
    buffer it read is left as it was, and the render pass that follows
    [++step] draws from the buffer just written. *)
Theorem render_shows_what_compute_wrote (d : Gpu) :
  let d' := snd (updateGrid computeMain d) in
  let input := read (current (step d)) (storage d) in
  let output := read (previous (step d)) (storage d) in
  fst (updateGrid computeMain d) = Normal tt /\
  step d' = S (step d) /\
  read (current (step d')) (storage d') = computeMain input output /\
  read (previous (step d')) (storage d') = input /\
  onCanvas d' = Some (read (current (step d')) (storage d')) /\
  submitted d' = S (submitted d).
Proof.
  cbv zeta. rewrite updateGrid_eq.
  cbn [fst snd step storage onCanvas submitted].
  rewrite current_succ, previous_succ.
  destruct (read_write_previous (step d)
              (computeMain (read (current (step d)) (storage d))
                           (read (previous (step d)) (storage d)))
              (storage d)) as [-> ->].
  repeat split.
Qed.

(** The generations reached by [n] calls from any state of the device. *)
Lemma calls_updateGrid n :
  forall d : Gpu,
    let a := read (current (step d)) (storage d) in
    let b := read (previous (step d)) (storage d) in
    let d' := calls (updateGrid computeMain) n d in
    step d' = (step d + n)%nat /\
    read (current (step d')) (storage d') =
      fst (generations computeMain a b n) /\
    read (previous (step d')) (storage d') =
      snd (generations computeMain a b n) /\
    onCanvas d' =
      match n with
      | O => onCanvas d
      | S _ => Some (fst (generations computeMain a b n))
      end /\
    submitted d' = (submitted d + n)%nat.
Proof.
  induction n as [ | n IH]; intros d; cbv zeta.
  - unfold calls; cbn [Nat.iter nat_rect generations fst snd].
    repeat split; lia.
  - unfold calls.
    change (Nat.iter (S n) (fun w' => snd (updateGrid computeMain w')) d)
      with (snd (updateGrid computeMain
                   (calls (updateGrid computeMain) n d))).
    destruct (IH d) as (Hs & Hcur & Hprev & _ & Hsub).
    cbv zeta in Hs, Hcur, Hprev, Hsub.
    set (e := calls (updateGrid computeMain) n d) in *.
    rewrite updateGrid_eq. cbn [snd step storage onCanvas submitted].
    rewrite current_succ, previous_succ.
    destruct (read_write_previous (step e)
                (computeMain (read (current (step e)) (storage e))
                             (read (previous (step e)) (storage e)))
                (storage e)) as [-> ->].
    rewrite Hcur, Hprev. cbn [generations].
    destruct (generations computeMain
                (read (current (step d)) (storage d))
                (read (previous (step d)) (storage d)) n) as [cur prev].
    cbn [fst snd]. repeat split; lia.
Qed.

(** X10. The [n]-th call of [updateGrid] leaves the [n]-th generation
    on the canvas: starting from [step = 0], after [n] calls the counter is
    [n], the buffer read next (A for even [n], B for odd [n]) holds the
    [n]-th generation, the other buffer the one before it, the canvas
    shows the [n]-th generation, and [n] command buffers have been
    submitted. *)
Theorem nth_call_holds_nth_generation n (a b : Buffer)
        (c : option Buffer) (k : nat) :
  let d := calls (updateGrid computeMain) n (mkGpu 0 (mkStorage a b) c k) in
  step d = n /\
  read (current n) (storage d) = fst (generations computeMain a b n) /\
  read (previous n) (storage d) = snd (generations computeMain a b n) /\
  onCanvas d =
    match n with
    | O => c
    | S _ => Some (fst (generations computeMain a b n))
    end /\
  submitted d = (k + n)%nat.
Proof.
  cbv zeta.
  destruct (calls_updateGrid n (mkGpu 0 (mkStorage a b) c k))
    as (Hs & Hcur & Hprev & Hcan & Hsub).
  cbv zeta in Hs, Hcur, Hprev, Hcan, Hsub.
  cbn [step storage onCanvas submitted current previous Nat.even read
       cellStateA cellStateB] in Hs, Hcur, Hprev, Hcan, Hsub.
  cbn [Nat.add] in Hs. rewrite Hs in Hcur, Hprev.
  repeat split; assumption.
Qed.

(** X11. Loop and callback together ([runGameOfLife]): whatever the
    update interval and however the frames fall, after any number of
    frames the counter [step] equals the number of draws the loop has
    made, and the canvas shows the generation of that number, computed
    from the initial cells. *)
Theorem canvas_shows_generation_of_draw_count
        (UPDATE_INTERVAL : number) (cells : Buffer) (now : Z) (ts : list Z) :
  match runGameOfLife computeMain UPDATE_INTERVAL cells now with
  | Some s =>
      let n := draws (trace (host (frames ts s))) in
      let d := world (host (frames ts s)) in
      step d = n /\
      read (current n) (storage d) =
        fst (generations computeMain cells cells n) /\
      onCanvas d =
        match n with
        | O => None
        | S _ => Some (fst (generations computeMain cells cells n))
        end /\
      submitted d = n
  | None => False
  end.
Proof.
  unfold runGameOfLife, main. rewrite constructor_eq.
  set (s0 := mkSys _ _).
  destruct (runLoop_world s0) as (n1 & Hd1 & Hw1).
  destruct (frames_world ts (snd (runLoop s0))) as (n2 & Hd2 & Hw2).
  destruct (runLoop_params s0) as (_ & _ & Ecb & _).
  rewrite Ecb, Hw1, <- calls_add in Hw2.
  assert (Hn : draws (trace (host (frames ts (snd (runLoop s0)))))
               = (n1 + n2)%nat).
  { rewrite Hd2, Hd1. unfold s0; cbn. lia. }
  cbv zeta. rewrite Hn, Hw2. unfold s0; cbn [game host drawCall world log].
  destruct (calls_updateGrid (n1 + n2) (initialGpu cells))
    as (H1 & H2 & _ & H4 & H5).
  cbv zeta in H1, H2, H4, H5.
  cbn [initialGpu step storage onCanvas submitted current previous
       Nat.even read cellStateA cellStateB Nat.add] in H1, H2, H4, H5.
  rewrite H1 in H2.
  repeat split; assumption.
Qed.

(** X12. The interval is the update interval, for the update intervals
    that divide 1000: [FPS] is computed as [1000 / UPDATE_INTERVAL], a
    whole number then, and the constructor's [1000 / FPS] gives
    [UPDATE_INTERVAL] back.  On binary64 numbers the same holds to the
    bit for each of the sixteen positive divisors of 1000, the source's
    40 among them. *)
Theorem interval_is_update_interval (u : Z) cb (h : Host Gpu) :
  u <> 0%Z -> (u | 1000)%Z ->
  (exists g h' q,
     constructor (Exn := TypeError) (FPS (JS.ofZ u)) cb h = (Normal g, h') /\
     FPS (JS.ofZ u) = Fin q /\ whole q /\
     (fpsInterval g =n= JS.ofZ u)%js) /\
  forallb (fun d => (1000 mod d =? 0)%Z) divisorsOf1000 = true /\
  forallb
    (fun d =>
       SFeqb (Binary64.fpsInterval
                (Binary64.game
                   (Binary64.fresh
                      (Binary64.div (Binary64.ofZ 1000) (Binary64.ofZ d))
                      cb h)))
             (Binary64.ofZ d))
    divisorsOf1000 = true.
Proof.
  intros Hu [m Hm]. split; [ | split; vm_compute; reflexivity ].
  assert (Huq : ~ (inject_Z u == 0)%Q).
  { intro E. apply Hu. unfold Qeq in E; cbn in E. lia. }
  rewrite constructor_eq.
  exists (mkGameLoop (FPS (JS.ofZ u)) (Fin 1000 / FPS (JS.ofZ u))%js cb
                     (JS.ofZ (clock h)) (Fin 0) (Fin 0) (Fin 0) (Fin 0)),
         (log (EvNow (clock h)) h), (1000 / inject_Z u)%Q.
  split; [ reflexivity | ].
  assert (EF : FPS (JS.ofZ u) = Fin (1000 / inject_Z u)).
  { unfold FPS, JS.ofZ, JS.div. rewrite (Qis_zero_false Huq). reflexivity. }
  split; [ exact EF | ]. split.
  - exists m. change 1000%Q with (inject_Z 1000). rewrite Hm, inject_Z_mult.
    field. exact Huq.
  - cbn [fpsInterval]. rewrite EF. unfold JS.div, JS.ofZ.
    rewrite (Qis_zero_false (interval_nonzero Huq)).
    cbn. field. exact Huq.
Qed.

(** X13. The dispatch covers the grid: for a grid of [G] cells a side and
    workgroups of [W > 0], [Math.ceil(G / W)] workgroups of [W] reach at
    least [G] cells and less than [G + W]. *)
Theorem workgroups_cover_grid (G W : Z) :
  (0 < W)%Z ->
  exists k : Z,
    workgroupCount (JS.ofZ G) (JS.ofZ W) = JS.ofZ k /\
    (G <= k * W)%Z /\ (k * W < G + W)%Z.
Proof.
  intros HW.
  assert (HWq : (0 < inject_Z W)%Q)
    by (change 0%Q with (inject_Z 0); rewrite <- Zlt_Qlt; exact HW).
  unfold workgroupCount, JS.ofZ, JS.div.
  rewrite Qis_zero_false by lra. cbn [Math_ceil].
  exists (Qceiling (inject_Z G / inject_Z W)). split; [ reflexivity | ].
  pose proof (Qle_ceiling (inject_Z G / inject_Z W)) as Hlo.
  pose proof (Qceiling_lt (inject_Z G / inject_Z W)) as Hhi.
  assert (E : (inject_Z G == inject_Z G / inject_Z W * inject_Z W)%Q)
    by (field; lra).
  set (k := Qceiling (inject_Z G / inject_Z W)) in *.
  unfold Z.sub in Hhi. rewrite inject_Z_plus in Hhi.
  change (inject_Z (- (1))) with (-1 # 1) in Hhi.
  set (q := (inject_Z G / inject_Z W)%Q) in *.
  split.
  - rewrite Zle_Qle, inject_Z_mult. nra.
  - rewrite Zlt_Qlt, inject_Z_mult, inject_Z_plus. nra.
Qed.

End GameOfLife.

(** * Typed arrays and the initial cells *)

Section Arrays.

Import TypedArray.

Lemma length_assign i v (arr : Uint32Array) :
  length (assign i v arr) = length arr.
Proof.
  revert i; induction arr as [ | x arr IH]; intros [ | i]; cbn;
    try reflexivity.
  rewrite IH; reflexivity.
Qed.

Lemma nth_assign_same i v (arr : Uint32Array) :
  (i < length arr)%nat -> nth i (assign i v arr) 0%N = (v mod 2 ^ 32)%N.
Proof.
  revert i; induction arr as [ | x arr IH]; intros [ | i] H; cbn in *;
    try lia; try reflexivity.
  apply IH; lia.
Qed.

Lemma nth_assign_other i j v (arr : Uint32Array) :
  i <> j -> nth j (assign i v arr) 0%N = nth j arr 0%N.
Proof.
  revert i j; induction arr as [ | x arr IH]; intros [ | i] [ | j] H; cbn;
    try reflexivity; try congruence.
  apply IH; congruence.
Qed.

Lemma forLoop_spec stride value :
  (0 < stride)%nat ->
  forall fuel i (arr : Uint32Array),
    (length arr - i <= fuel)%nat ->
    let out := forLoop stride value fuel i arr in
    length out = length arr /\
    forall j,
      (visited stride i (length arr) j ->
         nth j out 0%N = (value j mod 2 ^ 32)%N) /\
      (~ visited stride i (length arr) j -> nth j out 0%N = nth j arr 0%N).
Proof.
  intros Hs. induction fuel as [ | fuel IH]; intros i arr Hfuel; cbv zeta.
  - cbn [forLoop]. split; [ reflexivity | ].
    intros j. split; [ | reflexivity ].
    intros [Hj [q Hq]]. lia.
  - cbn [forLoop]. destruct (Nat.ltb_spec i (length arr)) as [Hi | Hi].
    + destruct (IH (i + stride)%nat (assign i (value i) arr)) as [Hlen Hnth].
      { rewrite length_assign. lia. }
      cbv zeta in Hlen, Hnth. rewrite length_assign in Hlen, Hnth.
      split; [ exact Hlen | ].
      intros j. destruct (Hnth j) as [Hin Hout]. split.
      * intros [Hj [q Hq]]. destruct q as [ | q].
        -- cbn in Hq. rewrite Nat.add_0_r in Hq. subst j.
           rewrite Hout; [ apply nth_assign_same; exact Hi | ].
           intros [_ [q' Hq']]. nia.
        -- apply Hin. split; [ exact Hj | ]. exists q. lia.
      * intros Hnot. rewrite Hout.
        -- apply nth_assign_other. intros ->. apply Hnot.
           split; [ exact Hi | ]. exists 0%nat. lia.
        -- intros [Hj [q Hq]]. apply Hnot. split; [ exact Hj | ].
           exists (S q). lia.
    + split; [ reflexivity | ].
      intros j. split; [ | reflexivity ].
      intros [Hj [q Hq]]. lia.
Qed.

Lemma nth_create n j : nth j (create n) 0%N = 0%N.
Proof.
  unfold create. revert j; induction n as [ | n IH]; intros [ | j]; cbn;
    try reflexivity.
  apply IH.
Qed.

Lemma length_create n : length (create n) = n.
Proof. apply repeat_length. Qed.

Lemma visited_every_third n j :
  visited 3 0 n j <-> (j < n)%nat /\ (j mod 3 = 0)%nat.
Proof.
  unfold visited. split; intros [Hj H]; (split; [ exact Hj | ]).
  - destruct H as [q ->]. cbn [Nat.add]. apply Nat.Div0.mod_mul.
  - apply Nat.Lcm0.mod_divide in H. destruct H as [q ->]. exists q.
    reflexivity.
Qed.

Lemma visited_every n j : visited 1 0 n j <-> (j < n)%nat.
Proof.
  unfold visited. split; [ intros [Hj _]; exact Hj | ].
  intros Hj. split; [ exact Hj | ]. exists j. lia.
Qed.

Lemma small_mod (v : N) : (v < 2)%N -> (v mod 2 ^ 32 = v)%N.
Proof. intros H. apply N.mod_small. cbn. lia. Qed.

(** X14. The two fixed patterns of [App.svelte]: for a grid of any size,
    buffer A holds 1 in the cells whose index is a multiple of 3 and 0
    elsewhere, and buffer B holds [i % 2] in cell [i]; nothing of the
    first pattern is left in the second although both are written
    through one array. *)
Theorem initial_patterns (GRID_SIZE j : nat) :
  (j < GRID_SIZE * GRID_SIZE)%nat ->
  let st := App.initialStorage GRID_SIZE in
  length (CGoL.cellStateA st) = (GRID_SIZE * GRID_SIZE)%nat /\
  length (CGoL.cellStateB st) = (GRID_SIZE * GRID_SIZE)%nat /\
  nth j (CGoL.cellStateA st) 0%N = (if (j mod 3 =? 0)%nat then 1 else 0)%N /\
  nth j (CGoL.cellStateB st) 0%N = N.of_nat (j mod 2).
Proof.
  intros Hj. cbv zeta. unfold App.initialStorage; cbn [CGoL.cellStateA CGoL.cellStateB].
  set (n := (GRID_SIZE * GRID_SIZE)%nat) in *.
  destruct (@forLoop_spec 3 (fun _ => 1%N) ltac:(lia)
              (length (create n)) 0%nat (create n) ltac:(lia))
    as [HlenA HnthA].
  cbv zeta in HlenA, HnthA. fold (App.everyThird (create n)) in HlenA, HnthA.
  rewrite length_create in HlenA, HnthA.
  set (a := App.everyThird (create n)) in *.
  destruct (@forLoop_spec 1 (fun i => N.of_nat (i mod 2)) ltac:(lia)
              (length a) 0%nat a ltac:(lia))
    as [HlenB HnthB].
  cbv zeta in HlenB, HnthB. fold (App.alternating a) in HlenB, HnthB.
  rewrite HlenA in HlenB, HnthB.
  split; [ exact HlenA | ]. split; [ exact HlenB | ]. split.
  - destruct (HnthA j) as [Hin Hout].
    destruct (Nat.eqb_spec (j mod 3) 0) as [E | E].
    + rewrite Hin; [ reflexivity | ]. apply visited_every_third. auto.
    + rewrite Hout; [ apply nth_create | ].
      intros Hv. apply visited_every_third in Hv. tauto.
  - destruct (HnthB j) as [Hin _]. rewrite Hin.
    + apply small_mod.
      assert (j mod 2 < 2)%nat by (apply Nat.mod_upper_bound; lia). lia.
    + apply visited_every. exact Hj.
Qed.

(** X15. The initial cells of [runGameOfLife]: cell [j] is 1 exactly
    when the [j]-th draw of [Math.random()] exceeded 0.6, and 0
    otherwise; one draw per cell, in index order. *)
Theorem random_cells_threshold (random : nat -> Q) (n j : nat) :
  (j < n)%nat ->
  length (CGoL.randomCells random n) = n /\
  nth j (CGoL.randomCells random n) 0%N =
    (if Qle_bool (random j) (6 # 10) then 0 else 1)%N.
Proof.
  intros Hj. unfold CGoL.randomCells.
  destruct (@forLoop_spec 1
              (fun i => if JS.gt (Fin (random i)) (Fin (6 # 10))
                        then 1%N else 0%N)
              ltac:(lia) n 0%nat (create n))
    as [Hlen Hnth].
  { rewrite length_create. lia. }
  cbv zeta in Hlen, Hnth. rewrite length_create in Hlen, Hnth.
  split; [ exact Hlen | ].
  destruct (Hnth j) as [Hin _]. rewrite Hin by (apply visited_every; exact Hj).
  cbn [JS.gt]. destruct (Qle_bool (random j) (6 # 10)); reflexivity.
Qed.

Lemma App_updateGrid_eq (d : CGoL.Gpu) :
  App.updateGrid d =
    (Normal tt,
     CGoL.mkGpu (S (CGoL.step d)) (CGoL.storage d)
                (Some (CGoL.read (CGoL.current (S (CGoL.step d)))
                                 (CGoL.storage d)))
                (S (CGoL.submitted d))).
Proof.
  destruct d as [n st c k].
  unfold App.updateGrid, bind, get, modify, App.bindGroupAt, CGoL.current.
  unfold CGoL.incrStep; cbn [CGoL.step CGoL.storage CGoL.onCanvas CGoL.submitted].
  rewrite (mod2_odd (S n)), Nat.odd_succ, Nat.even_succ, <- Nat.negb_even.
  destruct (Nat.even n); reflexivity.
Qed.

(** X16. The display of [App.svelte] alternates: its [updateGrid] never
    throws and never changes a buffer; after [n] calls, [n] at least 1,
    the canvas shows buffer B when [n] is odd and buffer A when [n] is
    even, so the first draw shows buffer B. *)
Theorem display_alternates (n : nat) (st : CGoL.Storage)
        (c : option CGoL.Buffer) (k : nat) :
  let d := calls App.updateGrid (S n) (CGoL.mkGpu 0 st c k) in
  (forall d0, fst (App.updateGrid d0) = Normal tt) /\
  CGoL.step d = S n /\
  CGoL.storage d = st /\
  CGoL.onCanvas d =
    Some (if Nat.even (S n) then CGoL.cellStateA st else CGoL.cellStateB st).
Proof.
  cbv zeta. split; [ intros d0; rewrite App_updateGrid_eq; reflexivity | ].
  induction n as [ | n (Hs & Hst & _)].
  - unfold calls, Nat.iter, nat_rect. rewrite App_updateGrid_eq. cbn.
    repeat split.
  - unfold calls in *.
    change (Nat.iter (S (S n)) (fun w' => snd (App.updateGrid w'))
                     (CGoL.mkGpu 0 st c k))
      with (snd (App.updateGrid
                   (Nat.iter (S n) (fun w' => snd (App.updateGrid w'))
                             (CGoL.mkGpu 0 st c k)))).
    rewrite App_updateGrid_eq. cbn [snd CGoL.step CGoL.storage CGoL.onCanvas].
    rewrite Hs, Hst. split; [ reflexivity | ]. split; [ reflexivity | ].
    unfold CGoL.current, CGoL.read. destruct (Nat.even (S (S n))); reflexivity.
Qed.

End Arrays.

(** * Getting the device *)

Section SetupProperties.

Import Setup String.

Variables GPUDevice GPUCanvasContext HTMLCanvasElement Format ApiError : Type.

Implicit Types
  page : Page GPUDevice GPUCanvasContext HTMLCanvasElement Format ApiError.

Ltac setup_cases page :=
  destruct page as [[[el [ctx | ]] | ] [[[[[[dev | e] ] | ] | e'] fmt] | ]];
  cbn.

(** X17. [initWebGPU] fulfils exactly when the page has a canvas and
    [navigator.gpu], the adapter request gives an adapter, the device
    request gives a device and the canvas gives a context; the payload
    then holds that canvas, context and device, and the four browser
    calls were made once each, in this order. *)
Theorem initWebGPU_fulfils_iff page p l :
  initWebGPU page [] = (Normal p, l) <->
  exists gpu adapter,
    querySelector page = Some (canvas p) /\
    navigator_gpu page = Some gpu /\
    requestAdapter gpu = Normal (Some adapter) /\
    requestDevice adapter = Normal (device p) /\
    getContext (canvas p) = Some (context p) /\
    l = [QuerySelector; RequestAdapter; RequestDevice; GetContext].
Proof.
  split.
  - setup_cases page; intros H; try discriminate H.
    injection H as <- <-. cbn.
    eexists; eexists. repeat split; reflexivity.
  - intros (gpu & adapter & Hq & Hg & Ha & Hd & Hc & ->).
    destruct p as [cv cx dv]; cbn in *.
    destruct page as [q g]; cbn in *. subst q g.
    destruct gpu as [ra fmt]; cbn in *. subst ra.
    destruct adapter as [rd]; cbn in *. subst rd.
    destruct cv as [el gc]; cbn in *. subst gc.
    reflexivity.
Qed.

(** X18. The context is tested last: when [initWebGPU] rejects with
    "Context failed to be initialized", the canvas and [navigator.gpu]
    were there, the adapter was found and the device had already been
    requested and obtained from it. *)
Theorem context_is_tested_after_the_device_is_taken page l :
  initWebGPU page [] =
    (Throw (Str "Context failed to be initialized"%string), l) ->
  exists cv gpu adapter dev,
    querySelector page = Some cv /\
    navigator_gpu page = Some gpu /\
    requestAdapter gpu = Normal (Some adapter) /\
    requestDevice adapter = Normal dev /\
    getContext cv = None /\
    l = [QuerySelector; RequestAdapter; RequestDevice; GetContext].
Proof.
  setup_cases page; intros H; try discriminate H.
  injection H as <-.
  eexists; eexists; eexists; eexists. repeat split; reflexivity.
Qed.

(** X19. Nothing is asked of the GPU without a canvas: when the page has
    no canvas or no [navigator.gpu], [initWebGPU] rejects with a bare
    string after the one call of [querySelector]; no adapter is
    requested, whatever the rest of the page is. *)
Theorem no_gpu_request_without_canvas page :
  querySelector page = None \/ navigator_gpu page = None ->
  exists m,
    initWebGPU page [] = (Throw (Str m), [QuerySelector]) /\
    (querySelector page = None -> m = "Canvas not present."%string).
Proof.
  intros [H | H]; destruct page as [[cv | ] [gpu | ]]; cbn in H;
    try discriminate H; cbn; eexists; (split; [ reflexivity | ]);
    intros E; try discriminate E; reflexivity.
Qed.

(** X20. The two ways of getting the device agree: on every page,
    [initWebGPU] of [CGoL.ts] fulfils exactly when [onMount] of
    [App.svelte] gets through, with the same device and context; and when
    they fail they fail at the same step with the same text,
    [initWebGPU] with a bare string, [onMount] with an [Error].
    [onMount] makes the same browser calls, and one more, for the canvas
    format, once the context has been asked for. *)
Theorem both_setups_agree page :
  match initWebGPU page [], onMount page [] with
  | (Normal p, l1), (Normal (dev, ctx, fmt), l2) =>
      device p = dev /\ context p = ctx /\
      l2 = l1 ++ [GetPreferredCanvasFormat]
  | (Throw r1, l1), (Throw r2, l2) =>
      sameFailure r1 r2 /\
      (l2 = l1 \/ l2 = l1 ++ [GetPreferredCanvasFormat])
  | _, _ => False
  end.
Proof.
  setup_cases page; repeat split; auto.
Qed.

End SetupProperties.

(** * The further properties at the application's instance *)

Section MoreInstances.

Import Scenario.

Local Open Scope Z_scope.

(** X1 after the ticks at 1000 and 1250: the boundary is 1200, six
    intervals of 200. *)
Lemma boundary_on_interval_grid_witness :
  let s := snd (tick 1250 (snd (tick 1000 (fresh (Fin 5) updateGrid 1000)))) in
  (0 < 5)%Q /\ whole (1000 / 5) /\ reachable (Fin 5) updateGrid s /\
  aligned (1000 / 5) (game s).
Proof.
  intros s.
  assert (Hpos : (0 < 5)%Q) by reflexivity.
  assert (Hw : whole (1000 / 5)) by (exists 200; reflexivity).
  assert (Hr : reachable (Fin 5) updateGrid s)
    by (apply reach_tick, reach_tick, fresh_reachable).
  split; [ exact Hpos | ]. split; [ exact Hw | ]. split; [ exact Hr | ].
  exact (proj1 (boundary_on_interval_grid Hpos Hw Hr)).
Defined.


(** X2 on the sixty-one ticks of the scenario. *)
Lemma invocations_bounded_by_elapsed_time_witness :
  let s := fresh (Fin 5) updateGrid 0 in
  let ts := 0 :: refresh60 in
  fpsInterval (game s) = Fin (1000 / 5) /\ (0 < 1000 / 5)%Q /\
  whole (1000 / 5) /\
  frameOffset (game s) = Fin 0 /\ whole 0 /\ (0 <= inject_Z 0)%Q /\
  nondecreasing 0 ts = true /\
  exists (n : nat) (f1 : Q),
    draws (trace (host (runTicks ts s))) = (draws (trace (host s)) + n)%nat /\
    world (host (runTicks ts s)) =
      calls (drawCall (game s)) n (world (host s)) /\
    frameOffset (game (runTicks ts s)) = Fin f1 /\
    whole f1 /\
    (inject_Z (Z.of_nat n) * (1000 / 5) <= f1 - 0)%Q /\
    (f1 <= inject_Z (last ts 0%Z))%Q.
Proof.
  intros s ts.
  assert (Hi : fpsInterval (game s) = Fin (1000 / 5)) by reflexivity.
  assert (Hpos : (0 < 1000 / 5)%Q) by reflexivity.
  assert (Hwi : whole (1000 / 5)) by (exists 200; reflexivity).
  assert (Hf : frameOffset (game s) = Fin 0) by reflexivity.
  assert (Hwf : whole 0) by (exists 0; reflexivity).
  assert (Hfc : (0 <= inject_Z 0)%Q) by (vm_compute; discriminate).
  assert (Hnd : nondecreasing 0 ts = true) by (vm_compute; reflexivity).
  split; [ exact Hi | ]. split; [ exact Hpos | ]. split; [ exact Hwi | ].
  split; [ exact Hf | ]. split; [ exact Hwf | ].
  split; [ exact Hfc | ]. split; [ exact Hnd | ].
  exact (invocations_bounded_by_elapsed_time ts s Hi Hpos Hwi Hf Hwf Hfc Hnd).
Defined.

(** X3 after the firing tick at 1000: a tick at 1250 fires and the step
    counter goes to 2, a second tick at 1000 does not and it stays 1. *)
Lemma next_fire_window_witness :
  let s := fresh (Fin 5) updateGrid 1000 in
  let s' := snd (tick 1000 s) in
  frameOffset (game s) = Fin 0 /\ whole 0 /\
  fpsInterval (game s) = Fin (1000 / 5) /\ whole (1000 / 5) /\
  (0 < 1000 / 5)%Q /\ gate 1000 (game s) = true /\
  (gate 1250 (game s') = true /\
   (fst (tick 1250 s'), world (host (snd (tick 1250 s')))) =
     drawCall (game s) (world (host s'))) /\
  (gate 1000 (game s') = false /\
   (fst (tick 1000 s'), world (host (snd (tick 1000 s')))) =
     (Normal tt, world (host s'))) /\
  world (host (snd (tick 1250 s'))) = 2%nat /\
  world (host (snd (tick 1000 s'))) = 1%nat.
Proof.
  intros s s'.
  assert (Hf : frameOffset (game s) = Fin 0) by reflexivity.
  assert (Hwf : whole 0) by (exists 0; reflexivity).
  assert (Hi : fpsInterval (game s) = Fin (1000 / 5)) by reflexivity.
  assert (Hwi : whole (1000 / 5)) by (exists 200; reflexivity).
  assert (Hpos : (0 < 1000 / 5)%Q) by reflexivity.
  assert (Hg : gate 1000 (game s) = true) by (vm_compute; reflexivity).
  split; [ exact Hf | ]. split; [ exact Hwf | ]. split; [ exact Hi | ].
  split; [ exact Hwi | ]. split; [ exact Hpos | ]. split; [ exact Hg | ].
  split.
  { apply (proj1 (next_fire_window s 1000 1250 Hf Hwf Hi Hwi Hpos Hg)).
    reflexivity. }
  split.
  { apply (proj2 (next_fire_window s 1000 1000 Hf Hwf Hi Hwi Hpos Hg)).
    vm_compute; discriminate. }
  split; vm_compute; reflexivity.
Defined.

(** X5 at rate 0, in the state the application is in after its first
    call of [runLoop]: one callback is registered, each of the three
    frames runs [runLoop] (three more clock reads are logged) and none
    draws, 4000 milliseconds after the start either. *)
Lemma zero_or_nan_rate_never_draws_witness :
  let s := snd (tick 1000 (fresh (Fin 0) updateGrid 1000)) in
  let ts := [1016; 1033; 5000] in
  (Fin 0 = NaN \/ (exists r : Q, Fin 0 = Fin r /\ (r == 0)%Q)) /\
  reachable (Fin 0) updateGrid s /\
  frameRequests (host s) = 1%nat /\
  trace (host (frames ts s)) =
    trace (host s) ++
    [EvRequestFrame; EvNow 1016; EvRequestFrame; EvNow 1033;
     EvRequestFrame; EvNow 5000] /\
  draws (trace (host (frames ts s))) = draws (trace (host s)) /\
  world (host (frames ts s)) = world (host s) /\
  world (host (runTicks ts s)) = world (host s) /\
  world (host s) = 0%nat.
Proof.
  intros s ts.
  assert (HR : Fin 0 = NaN \/ (exists r : Q, Fin 0 = Fin r /\ (r == 0)%Q)).
  { right. exists 0%Q. split; reflexivity. }
  assert (Hr : reachable (Fin 0) updateGrid s)
    by (apply reach_tick, fresh_reachable).
  split; [ exact HR | ]. split; [ exact Hr | ].
  split; [ vm_compute; reflexivity | ]. split; [ vm_compute; reflexivity | ].
  destruct (zero_or_nan_rate_never_draws ts HR Hr) as [[Hd Hw] [_ Hw']].
  split; [ exact Hd | ]. split; [ exact Hw | ].
  split; [ exact Hw' | vm_compute; reflexivity ].
Defined.

(** X6 at rate -5: three ticks, three draws, and the step counter is 3. *)
Lemma negative_rate_draws_on_every_tick_witness :
  let s := fresh (Fin (-5)) updateGrid 1000 in
  let ts := [1000; 1016; 1033] in
  fpsInterval (game s) = Fin (1000 / -5) /\ (1000 / -5 < 0)%Q /\
  frameOffset (game s) = Fin 0 /\ (0 <= inject_Z 1000)%Q /\
  nondecreasing 1000 ts = true /\
  draws (trace (host (runTicks ts s))) =
    (draws (trace (host s)) + length ts)%nat /\
  world (host (runTicks ts s)) =
    calls (drawCall (game s)) (length ts) (world (host s)) /\
  world (host (runTicks ts s)) = 3%nat.
Proof.
  intros s ts.
  assert (Hi : fpsInterval (game s) = Fin (1000 / -5)) by reflexivity.
  assert (Hneg : (1000 / -5 < 0)%Q) by reflexivity.
  assert (Hf : frameOffset (game s) = Fin 0) by reflexivity.
  assert (Hfc : (0 <= inject_Z 1000)%Q) by (vm_compute; discriminate).
  assert (Hnd : nondecreasing 1000 ts = true) by reflexivity.
  split; [ exact Hi | ]. split; [ exact Hneg | ]. split; [ exact Hf | ].
  split; [ exact Hfc | ]. split; [ exact Hnd | ].
  destruct (negative_rate_draws_on_every_tick ts s Hi Hneg Hf Hfc Hnd)
    as [Hd Hw].
  split; [ exact Hd | ]. split; [ exact Hw | vm_compute; reflexivity ].
Defined.


(** X12 for the source's [UPDATE_INTERVAL = 40]: the rate is 25 frames
    per second and the interval is 40 again. *)
Lemma interval_is_update_interval_witness :
  let cb := CGoL.updateGrid (fun _ b => b) in
  let h := mkHost 1000 0 [] (CGoL.initialGpu []) in
  40 <> 0 /\ (40 | 1000) /\
  CGoL.FPS (JS.ofZ 40) = Fin (1000 / 40) /\
  ((exists g h' q,
      constructor (Exn := CGoL.TypeError) (CGoL.FPS (JS.ofZ 40)) cb h =
        (Normal g, h') /\
      CGoL.FPS (JS.ofZ 40) = Fin q /\ whole q /\
      (fpsInterval g =n= JS.ofZ 40)%js) /\
   forallb (fun d => (1000 mod d =? 0)%Z) divisorsOf1000 = true /\
   forallb
     (fun d =>
        SFeqb (Binary64.fpsInterval
                 (Binary64.game
                    (Binary64.fresh
                       (Binary64.div (Binary64.ofZ 1000) (Binary64.ofZ d))
                       cb h)))
              (Binary64.ofZ d))
     divisorsOf1000 = true).
Proof.
  intros cb h.
  assert (H0 : 40 <> 0) by discriminate.
  assert (HD : (40 | 1000)) by (exists 25; reflexivity).
  split; [ exact H0 | ]. split; [ exact HD | ].
  split; [ reflexivity | ].
  exact (interval_is_update_interval cb h H0 HD).
Defined.

(** X13 for the grid of 32 and workgroups of 8. *)
Lemma workgroups_cover_grid_witness :
  0 < 8 /\
  exists k : Z,
    CGoL.workgroupCount (JS.ofZ 32) (JS.ofZ 8) = JS.ofZ k /\
    32 <= k * 8 /\ k * 8 < 32 + 8.
Proof.
  assert (HW : 0 < 8) by reflexivity.
  split; [ exact HW | ]. exact (workgroups_cover_grid 32 HW).
Defined.

(** X14 for the grid of 32: cell 3 of buffer A is 1, of buffer B 1. *)
Lemma initial_patterns_witness :
  (3 < 32 * 32)%nat /\
  nth 3 (CGoL.cellStateA (App.initialStorage 32)) 0%N = 1%N /\
  nth 3 (CGoL.cellStateB (App.initialStorage 32)) 0%N = 1%N.
Proof.
  assert (Hj : (3 < 32 * 32)%nat) by (vm_compute; lia).
  split; [ exact Hj | ].
  destruct (initial_patterns 32 Hj) as (_ & _ & HA & HB). cbv zeta in HA, HB.
  split; [ exact HA | exact HB ].
Defined.

(** X15 with draws 0.7, 0.5, 0.7, 0.5. *)
Lemma random_cells_threshold_witness :
  let random := fun i : nat => if Nat.even i then (7 # 10)%Q else (5 # 10)%Q in
  (1 < 4)%nat /\
  nth 1 (CGoL.randomCells random 4) 0%N = 0%N.
Proof.
  intros random.
  assert (Hj : (1 < 4)%nat) by lia.
  split; [ exact Hj | ].
  exact (proj2 (random_cells_threshold random Hj)).
Defined.

End MoreInstances.

Section SetupInstances.

Import String.

(** X17 on the page that has everything. *)
Lemma initWebGPU_fulfils_iff_witness :
  exists p l,
    Setup.initWebGPU Pages.complete [] = (Normal p, l) /\
    Setup.device p = tt.
Proof.
  exists (Setup.mkPayload Pages.withContext tt tt).
  exists [Setup.QuerySelector; Setup.RequestAdapter; Setup.RequestDevice;
          Setup.GetContext].
  split; [ | reflexivity ].
  apply (proj2 (initWebGPU_fulfils_iff Pages.complete _ _)).
  exists Pages.goodGpu, (Setup.mkAdapter (Normal (Exn := Pages.Obj) tt)).
  repeat split; reflexivity.
Defined.

(** X18 on the page whose canvas gives no context. *)
Lemma context_is_tested_after_the_device_is_taken_witness :
  exists l,
    Setup.initWebGPU Pages.contextless [] =
      (Throw (Setup.Str "Context failed to be initialized"%string), l) /\
    In Setup.RequestDevice l.
Proof.
  exists [Setup.QuerySelector; Setup.RequestAdapter; Setup.RequestDevice;
          Setup.GetContext].
  assert (H : Setup.initWebGPU Pages.contextless [] =
              (Throw (Setup.Str "Context failed to be initialized"%string),
               [Setup.QuerySelector; Setup.RequestAdapter;
                Setup.RequestDevice; Setup.GetContext]))
    by reflexivity.
  split; [ exact H | ].
  destruct (context_is_tested_after_the_device_is_taken Pages.contextless H)
    as (_ & _ & _ & _ & _ & _ & _ & _ & _ & E).
  right; right; left; reflexivity.
Defined.

(** X19 on the page without a canvas. *)
Lemma no_gpu_request_without_canvas_witness :
  (Setup.querySelector Pages.canvasless = None \/
   Setup.navigator_gpu Pages.canvasless = None) /\
  exists m,
    Setup.initWebGPU Pages.canvasless [] =
      (Throw (Setup.Str m), [Setup.QuerySelector]).
Proof.
  assert (H : Setup.querySelector Pages.canvasless = None \/
              Setup.navigator_gpu Pages.canvasless = None)
    by (left; reflexivity).
  split; [ exact H | ].
  destruct (no_gpu_request_without_canvas Pages.canvasless H) as [m [Hm _]].
  exists m. exact Hm.
Defined.

End SetupInstances.

(** * The loop on binary64 numbers *)

Section Binary64Instances.

Import Scenario.

Local Open Scope Z_scope.


(** On whole numbers the two number systems agree: the scenario of C5
    run on binary64 numbers draws at the same four readings and ends on
    the same boundary, 800; with the interval 40 of [CGoL.ts] it draws 24
    times in the second. *)
Example binary64_agrees_on_whole_intervals :
  let s := Binary64.runTicks (0 :: refresh60)
             (Binary64.fresh (Binary64.ofZ 5) updateGrid (host0 0)) in
  let s' := Binary64.runTicks (0 :: refresh60)
              (Binary64.fresh (Binary64.ofZ 25) updateGrid (host0 0)) in
  drawTimes 0 (trace (Binary64.host s)) = [216; 416; 616; 816] /\
  world (Binary64.host s) = 4%nat /\
  Binary64.frameOffset (Binary64.game s) = Binary64.ofZ 800 /\
  Binary64.fpsInterval (Binary64.game s) = Binary64.ofZ 200 /\
  Binary64.fpsInterval (Binary64.game s') = Binary64.ofZ 40 /\
  world (Binary64.host s') =
    world (host (runTicks (0 :: refresh60) (fresh (Fin 25) updateGrid 0))).
Proof. vm_compute. repeat split; reflexivity. Qed.

(** Where the interval is not a whole number they part: at rate 24 the
    loop on binary64 numbers draws 24 times in the second and ends on a
    boundary just below 1000, the exact one 23 times.  And the negative
    zero is a rate of its own: the interval is [-Infinity] and every tick
    draws. *)
Example binary64_parts_on_other_rates :
  let s := Binary64.runTicks (0 :: refresh60)
             (Binary64.fresh (Binary64.ofZ 24) updateGrid (host0 0)) in
  let z := Binary64.fresh (S754_zero true) updateGrid (host0 1000) in
  world (Binary64.host s) = 24%nat /\
  world (host (runTicks (0 :: refresh60) (fresh (Fin 24) updateGrid 0)))
    = 23%nat /\
  (Binary64.toQ (Binary64.frameOffset (Binary64.game s)) < 1000)%Q /\
  Binary64.fpsInterval (Binary64.game z) = S754_infinity true /\
  world (Binary64.host (Binary64.runTicks [1000; 1016; 1033] z)) = 3%nat.
Proof. vm_compute. repeat split; reflexivity. Qed.

End Binary64Instances.
